(** * PhishSpector: the signal-fusion and trust-accumulation engine

    A shallow embedding of the scoring core of the PhishSpector browser
    extension:

    - [background.js]: the authentication-results parser, the header-trust
      calculator, the timed caches, the trusted-sender ledger and the
      [get_scores] ensemble;
    - [content.js]: the lexical scorer [computeLocalScore], the link
      estimator [estimateLinkRisk], the click gate of
      [protectSuspiciousLinks] and the risk tier of
      [buildEnhancedAnalysisHTML].

    Conventions of the embedding.
    - A JavaScript string is a [string] of 8-bit characters; [toLowerCase]
      and the [/i] flag fold the ASCII letters only.
    - A JavaScript number is an exact rational, or NaN, or an infinity
      ([number]); binary64 rounding of products such as [0.2 * x] is not
      modelled.  Quantities that the code only ever builds from integer
      literals by [+], [-], [min], [max] (trust values, counters, lexical
      scores, timestamps) are [Z].
    - [Date.now()] and [Math.random()] are explicit arguments.
    - A JavaScript object used as a dictionary is a [gmap] with string keys.
    - Asynchronous collaborators (the ML backend, the token provider, the
      mail API) are modelled by their outcome: a result or a thrown error. *)

From Stdlib Require Import ZArith QArith Qround Lia Lqa Ascii String List Bool.
From stdpp Require Import base gmap strings list fin_maps pretty.

Local Open Scope Z_scope.

(* ===================================================================== *)
(** * Part I: definitions                                                 *)
(* ===================================================================== *)

(** ** Characters and strings *)

Definition code (c : ascii) : N := N_of_ascii c.

Definition in_range (lo hi c : ascii) : bool :=
  ((code lo <=? code c) && (code c <=? code hi))%N.

Definition is_upper (c : ascii) : bool := in_range "A" "Z" c.
Definition is_lower (c : ascii) : bool := in_range "a" "z" c.
Definition is_digit (c : ascii) : bool := in_range "0" "9" c.

(** [\w] *)
Definition is_word (c : ascii) : bool :=
  is_upper c || is_lower c || is_digit c || Ascii.eqb c "_".

(** [\s], and the characters removed by [trim]: TAB, LF, VT, FF, CR, SPACE. *)
Definition is_space (c : ascii) : bool :=
  ((9 <=? code c) && (code c <=? 13) || (code c =? 32))%N.

(** The characters [.] does not match: LF and CR. *)
Definition is_line_terminator (c : ascii) : bool :=
  ((code c =? 10) || (code c =? 13))%N.

Definition lower_ascii (c : ascii) : ascii :=
  if is_upper c then ascii_of_N (code c + 32) else c.

Definition upper_ascii (c : ascii) : ascii :=
  if is_lower c then ascii_of_N (code c - 32) else c.

(** [s.toLowerCase()] *)
Fixpoint toLowerCase (s : string) : string :=
  match s with
  | EmptyString => EmptyString
  | String c s' => String (lower_ascii c) (toLowerCase s')
  end.

(** [s.startsWith(p)], written [startsWith p s]. *)
Fixpoint startsWith (p s : string) : bool :=
  match p, s with
  | EmptyString, _ => true
  | String a p', String b s' => Ascii.eqb a b && startsWith p' s'
  | String _ _, EmptyString => false
  end.

(** [s.includes(sub)] *)
Fixpoint includes (s sub : string) : bool :=
  startsWith sub s ||
  match s with
  | EmptyString => false
  | String _ s' => includes s' sub
  end.

Fixpoint drop_space (l : list ascii) : list ascii :=
  match l with
  | c :: l' => if is_space c then drop_space l' else l
  | [] => []
  end.

(** [s.trim()] *)
Definition trim (s : string) : string :=
  string_of_list_ascii
    (rev (drop_space (rev (drop_space (list_ascii_of_string s))))).

(** [s.replace(/[class]/g, '')] for a one-character class: the characters
    of the class are dropped. *)
Definition remove_chars (p : ascii -> bool) (s : string) : string :=
  string_of_list_ascii (List.filter (fun c => negb (p c)) (list_ascii_of_string s)).

(** [(s.match(/c/g) || []).length] for a one-character pattern. *)
Definition count_chars (p : ascii -> bool) (s : string) : nat :=
  List.length (List.filter (fun c => p c) (list_ascii_of_string s)).

(** [s.replace(e, '')] for a string pattern [e]: the first occurrence of [e]
    is removed; the empty pattern matches at position 0 and changes
    nothing. *)
Fixpoint remove_first (e s : string) : string :=
  if startsWith e s then String.substring (String.length e) (String.length s) s
  else match s with
       | EmptyString => EmptyString
       | String c s' => String c (remove_first e s')
       end.

(** JavaScript truthiness of a string, and [a || b] on strings. *)
Definition truthy_str (s : string) : bool :=
  match s with EmptyString => false | String _ _ => true end.

Definition or_str (a b : string) : string := if truthy_str a then a else b.

(** ** Regular expressions

    The fragment of ECMAScript regular expressions that the sources use,
    with the backtracking semantics of the language: alternatives and
    greedy repetitions are tried in priority order and the first complete
    match wins. *)

Inductive citem : Type :=
| CChar (c : ascii)              (* a literal character *)
| CRange (lo hi : ascii)         (* [lo-hi] *)
| CDigit                         (* \d *)
| CSpace                         (* \s *)
| CWord.                         (* \w *)

Inductive regex : Type :=
| REmpty                                   (* the empty pattern *)
| RAny                                     (* . *)
| RSet (neg : bool) (items : list citem)   (* [...] and [^...] *)
| RSeq (r1 r2 : regex)
| RAlt (r1 r2 : regex)                     (* r1|r2 *)
| RStar (r : regex)                        (* r*, greedy *)
| RGroup (i : nat) (r : regex)             (* the i-th capturing group *)
| RWordB                                   (* \b *)
| REnd.                                    (* $ *)

Definition citem_matches (it : citem) (c : ascii) : bool :=
  match it with
  | CChar a => Ascii.eqb a c
  | CRange lo hi => in_range lo hi c
  | CDigit => is_digit c
  | CSpace => is_space c
  | CWord => is_word c
  end.

(** Membership in a class; under [/i] a character matches when one of its
    case variants is in the class. *)
Definition set_matches (ci : bool) (items : list citem) (c : ascii) : bool :=
  existsb (fun it =>
             citem_matches it c ||
             (ci && (citem_matches it (lower_ascii c) ||
                     citem_matches it (upper_ascii c)))) items.

Record mstate : Type := MState {
  m_pos : nat;                            (* index of the next character *)
  m_prev : option ascii;                  (* the character before it *)
  m_rest : list ascii;                    (* the input from [m_pos] on *)
  m_caps : list (nat * (nat * nat))       (* group |-> (start, end) *)
}.

Definition advance (st : mstate) (c : ascii) (tl : list ascii) : mstate :=
  MState (S (m_pos st)) (Some c) tl (m_caps st).

Definition set_cap (i : nat) (from : nat) (st : mstate) : mstate :=
  MState (m_pos st) (m_prev st) (m_rest st) ((i, (from, m_pos st)) :: m_caps st).

Definition is_word_opt (o : option ascii) : bool :=
  match o with Some c => is_word c | None => false end.

(** The matcher, in continuation-passing style: [k] is the rest of the
    pattern.  A repetition stops when an iteration consumes nothing. *)
Fixpoint rmatch (ci : bool) (r : regex) (st : mstate)
    (k : mstate -> option mstate) {struct r} : option mstate :=
  match r with
  | REmpty => k st
  | RAny =>
      match m_rest st with
      | c :: tl => if is_line_terminator c then None else k (advance st c tl)
      | [] => None
      end
  | RSet neg items =>
      match m_rest st with
      | c :: tl =>
          if xorb neg (set_matches ci items c) then k (advance st c tl) else None
      | [] => None
      end
  | RSeq r1 r2 => rmatch ci r1 st (fun st' => rmatch ci r2 st' k)
  | RAlt r1 r2 =>
      match rmatch ci r1 st k with
      | Some res => Some res
      | None => rmatch ci r2 st k
      end
  | RStar r' =>
      (fix loop (n : nat) (st : mstate) {struct n} : option mstate :=
         match n with
         | O => k st
         | S n' =>
             match rmatch ci r' st
                     (fun st' => if (m_pos st <? m_pos st')%nat
                                 then loop n' st' else None) with
             | Some res => Some res
             | None => k st
             end
         end) (S (List.length (m_rest st))) st
  | RGroup i r' => rmatch ci r' st (fun st' => k (set_cap i (m_pos st) st'))
  | RWordB =>
      if xorb (is_word_opt (m_prev st)) (is_word_opt (head (m_rest st)))
      then k st else None
  | REnd => match m_rest st with [] => k st | _ :: _ => None end
  end.

(** A successful match: where it starts and the final matcher state. *)
Record rmatch_result : Type := MatchResult {
  mr_start : nat;
  mr_final : mstate
}.

(** Leftmost match at or after the current position. *)
Fixpoint exec_from (ci : bool) (r : regex) (pos : nat) (prev : option ascii)
    (rest : list ascii) : option rmatch_result :=
  match rmatch ci r (MState pos prev rest []) Some with
  | Some st => Some (MatchResult pos st)
  | None =>
      match rest with
      | [] => None
      | c :: tl => exec_from ci r (S pos) (Some c) tl
      end
  end.

(** [r.exec(s)] *)
Definition exec (ci : bool) (r : regex) (s : string) : option rmatch_result :=
  exec_from ci r 0 None (list_ascii_of_string s).

(** [r.test(s)] *)
Definition test (ci : bool) (r : regex) (s : string) : bool :=
  match exec ci r s with Some _ => true | None => false end.

Definition slice (from to : nat) (s : string) : string :=
  String.substring from (to - from) s.

(** [m[0]] *)
Definition matched (s : string) (m : rmatch_result) : string :=
  slice (mr_start m) (m_pos (mr_final m)) s.

(** [m[i]] for a capturing group (the last capture of the group). *)
Definition capture (s : string) (m : rmatch_result) (i : nat) : option string :=
  match List.find (fun p => Nat.eqb (fst p) i) (m_caps (mr_final m)) with
  | Some (_, (from, to)) => Some (slice from to s)
  | None => None
  end.

(** [s.match(r)] with the [g] flag: all the matches, left to right, each
    search resuming where the previous match ended (one character further
    after an empty match). *)
Fixpoint match_all_from (fuel : nat) (ci : bool) (r : regex) (s : string)
    (pos : nat) (prev : option ascii) (rest : list ascii) : list string :=
  match fuel with
  | O => []
  | S fuel' =>
      match exec_from ci r pos prev rest with
      | None => []
      | Some m =>
          let st := mr_final m in
          matched s m ::
          (if (mr_start m <? m_pos st)%nat
           then match_all_from fuel' ci r s (m_pos st) (m_prev st) (m_rest st)
           else match m_rest st with
                | [] => []
                | c :: tl => match_all_from fuel' ci r s (S (m_pos st)) (Some c) tl
                end)
      end
  end.

Definition match_all (ci : bool) (r : regex) (s : string) : list string :=
  match_all_from (S (String.length s)) ci r s 0 None (list_ascii_of_string s).

(** Pattern combinators. *)
Definition chr (c : ascii) : regex := RSet false [CChar c].
Definition cls (items : list citem) : regex := RSet false items.
Definition ncls (items : list citem) : regex := RSet true items.
Definition digit : regex := RSet false [CDigit].

Fixpoint lit (s : string) : regex :=
  match s with
  | EmptyString => REmpty
  | String c EmptyString => chr c
  | String c s' => RSeq (chr c) (lit s')
  end.

Definition rseq (rs : list regex) : regex := fold_right RSeq REmpty rs.
Definition opt (r : regex) : regex := RAlt r REmpty.          (* r? *)
Definition plus (r : regex) : regex := RSeq r (RStar r).      (* r+ *)

(** [r{lo,lo+extra}] *)
Fixpoint upto (extra : nat) (r : regex) : regex :=
  match extra with
  | O => REmpty
  | S n => opt (RSeq r (upto n r))
  end.

Fixpoint times (lo : nat) (r : regex) (then_ : regex) : regex :=
  match lo with
  | O => then_
  | S n => RSeq r (times n r then_)
  end.

Definition rep (lo extra : nat) (r : regex) : regex := times lo r (upto extra r).
Definition at_least (lo : nat) (r : regex) : regex := times lo r (RStar r).


(** ** JavaScript numbers and values *)

(** A number: a finite value (exact), NaN, or an infinity ([Inf true] is
    [-Infinity]). *)
Inductive number : Type :=
| Fin (q : Q)
| NaN
| Inf (neg : bool).

Definition num_of_Z (z : Z) : number := Fin (inject_Z z).

Definition q_is_zero (q : Q) : bool := (Qnum q =? 0)%Z.
Definition q_is_neg (q : Q) : bool := (Qnum q <? 0)%Z.

(** [a * b] *)
Definition nmul (a b : number) : number :=
  match a, b with
  | NaN, _ | _, NaN => NaN
  | Fin x, Fin y => Fin (x * y)
  | Fin x, Inf s | Inf s, Fin x =>
      if q_is_zero x then NaN else Inf (xorb s (q_is_neg x))
  | Inf s, Inf t => Inf (xorb s t)
  end.

(** [a + b] *)
Definition nadd (a b : number) : number :=
  match a, b with
  | NaN, _ | _, NaN => NaN
  | Fin x, Fin y => Fin (x + y)
  | Fin _, Inf s | Inf s, Fin _ => Inf s
  | Inf s, Inf t => if Bool.eqb s t then Inf s else NaN
  end.

(** [-a] and [a - b] *)
Definition nneg (a : number) : number :=
  match a with
  | Fin x => Fin (- x)
  | NaN => NaN
  | Inf s => Inf (negb s)
  end.

Definition nsub (a b : number) : number := nadd a (nneg b).

(** [a <= b] on numbers that are not NaN. *)
Definition nleb (a b : number) : bool :=
  match a, b with
  | Fin x, Fin y => Qle_bool x y
  | Inf true, _ => true
  | _, Inf false => true
  | _, _ => false
  end.

(** [Math.min(a, b)] and [Math.max(a, b)]: NaN when an argument is NaN. *)
Definition Math_min (a b : number) : number :=
  match a, b with
  | NaN, _ | _, NaN => NaN
  | _, _ => if nleb a b then a else b
  end.

Definition Math_max (a b : number) : number :=
  match a, b with
  | NaN, _ | _, NaN => NaN
  | _, _ => if nleb a b then b else a
  end.

(** Rounding to the nearest integer, ties towards +Infinity. *)
Definition round_half_up (q : Q) : Z := Qfloor (q + (1 # 2)).

(** [Math.round(a)] *)
Definition Math_round (a : number) : number :=
  match a with
  | Fin x => num_of_Z (round_half_up x)
  | NaN => NaN
  | Inf s => Inf s
  end.

(** Truthiness of a number: [0] and NaN are falsy. *)
Definition truthy_num (a : number) : bool :=
  match a with
  | Fin x => negb (q_is_zero x)
  | NaN => false
  | Inf _ => true
  end.

(** The values that travel through the scoring handlers.  [JObject] stands
    for any object or array: the handlers only look at its type. *)
Inductive jsval : Type :=
| JUndefined
| JNull
| JBool (b : bool)
| JNum (n : number)
| JStr (s : string)
| JObject.

Definition truthy (v : jsval) : bool :=
  match v with
  | JUndefined | JNull => false
  | JBool b => b
  | JNum n => truthy_num n
  | JStr s => truthy_str s
  | JObject => true
  end.

(** [a || b] *)
Definition js_or (a b : jsval) : jsval := if truthy a then a else b.

(** ** [parseFloat]

    Leading white space is skipped, then the longest prefix that is a
    decimal literal is read: an optional sign, then [Infinity], or digits
    with an optional fraction and an optional exponent.  No such prefix
    gives NaN. *)

Fixpoint span_digits (l : list ascii) : list ascii * list ascii :=
  match l with
  | c :: l' =>
      if is_digit c then let '(ds, r) := span_digits l' in (c :: ds, r)
      else ([], l)
  | [] => ([], [])
  end.

Definition digit_val (c : ascii) : Z := Z.of_N (code c) - 48.

Definition digits_val (ds : list ascii) : Z :=
  fold_left (fun acc c => 10 * acc + digit_val c) ds 0.

(** [10 ^ e] for an integer [e]. *)
Definition pow10 (e : Z) : Q :=
  if e <? 0 then 1 # Z.to_pos (10 ^ (- e)) else inject_Z (10 ^ e).

(** The exponent part: [e] or [E], an optional sign and at least one digit;
    anything else is not part of the literal. *)
Definition read_exponent (l : list ascii) : Z :=
  match l with
  | c :: l1 =>
      if Ascii.eqb c "e" || Ascii.eqb c "E" then
        let '(neg, l2) :=
          match l1 with
          | s :: l2 =>
              if Ascii.eqb s "-" then (true, l2)
              else if Ascii.eqb s "+" then (false, l2)
              else (false, l1)
          | [] => (false, l1)
          end in
        let '(ds, _) := span_digits l2 in
        match ds with
        | [] => 0
        | _ :: _ => if neg then - digits_val ds else digits_val ds
        end
      else 0
  | [] => 0
  end.

Definition read_unsigned (l : list ascii) : option number :=
  if startsWith "Infinity" (string_of_list_ascii l) then Some (Inf false)
  else
    let '(ip, l1) := span_digits l in
    let '(fp, l2) :=
      match l1 with
      | c :: l1' =>
          if Ascii.eqb c "." then
            let '(fp, l2) := span_digits l1' in
            match ip, fp with
            | [], [] => ([], l1)
            | _, _ => (fp, l2)
            end
          else ([], l1)
      | [] => ([], l1)
      end in
    match ip, fp with
    | [], [] => None
    | _, _ =>
        let mant := inject_Z (digits_val (ip ++ fp)) in
        let e := read_exponent l2 - Z.of_nat (List.length fp) in
        Some (Fin (Qred (mant * pow10 e)))
    end.

Definition parseFloat (s : string) : number :=
  let l := drop_space (list_ascii_of_string s) in
  let '(neg, l') :=
    match l with
    | c :: l' =>
        if Ascii.eqb c "-" then (true, l')
        else if Ascii.eqb c "+" then (false, l')
        else (false, l)
    | [] => (false, l)
    end in
  match read_unsigned l' with
  | Some n => if neg then nneg n else n
  | None => NaN
  end.


(** ** background.js: configuration *)

Definition CACHE_TTL_MS : Z := 1000 * 60 * 10.
Definition QUERY_CACHE_TTL_MS : Z := 1000 * 60 * 5.

Record Weights : Type := {
  w_local : number;
  w_ml : number;
  w_header : number;
  w_history : number
}.

Definition WEIGHTS : Weights := {|
  w_local := Fin (25 # 100);
  w_ml := Fin (50 # 100);
  w_header := Fin (20 # 100);
  w_history := Fin (5 # 100)
|}.

Definition TRUST_BOOST_FROM_HISTORY : Z := 25.

Record HeaderTrustPoints : Type := {
  spf_pass : Z; dkim_pass : Z; dmarc_pass : Z;
  spf_fail : Z; dkim_fail : Z; dmarc_fail : Z
}.

Definition HEADER_TRUST_POINTS : HeaderTrustPoints := {|
  spf_pass := 40; dkim_pass := 40; dmarc_pass := 20;
  spf_fail := -40; dkim_fail := -40; dmarc_fail := -20
|}.

Definition MAX_SCORE : number := num_of_Z 100.

(** ** background.js: [parseAuthResults] and [headerTrustFromParsed] *)

Inductive verdict : Type := VPass | VFail.

(** A [null] verdict is [None]. *)
Record AuthVerdict : Type := {
  spf : option verdict;
  dkim : option verdict;
  dmarc : option verdict;
  raw : string
}.

Definition protocol_verdict (lower proto : string) : option verdict :=
  if includes lower (proto +:+ "=pass") then Some VPass
  else if includes lower (proto +:+ "=fail") then Some VFail
  else None.

Definition parseAuthResults (authHeader : jsval) : AuthVerdict :=
  match authHeader with
  | JStr s =>
      if truthy_str s then
        let lower := toLowerCase s in
        {| spf := protocol_verdict lower "spf";
           dkim := protocol_verdict lower "dkim";
           dmarc := protocol_verdict lower "dmarc";
           raw := s |}
      else {| spf := None; dkim := None; dmarc := None; raw := "" |}
  | _ => {| spf := None; dkim := None; dmarc := None; raw := "" |}
  end.

Definition is_verdict (o : option verdict) (v : verdict) : bool :=
  match o, v with
  | Some VPass, VPass | Some VFail, VFail => true
  | _, _ => false
  end.

Definition clamp (lo hi x : Z) : Z := Z.max lo (Z.min hi x).

Definition headerTrustFromParsed (parsed : option AuthVerdict) : Z :=
  match parsed with
  | None => 50
  | Some parsed =>
      let trust := 50 in
      let trust := if is_verdict (spf parsed) VPass
                   then trust + spf_pass HEADER_TRUST_POINTS else trust in
      let trust := if is_verdict (spf parsed) VFail
                   then trust + spf_fail HEADER_TRUST_POINTS else trust in
      let trust := if is_verdict (dkim parsed) VPass
                   then trust + dkim_pass HEADER_TRUST_POINTS else trust in
      let trust := if is_verdict (dkim parsed) VFail
                   then trust + dkim_fail HEADER_TRUST_POINTS else trust in
      let trust := if is_verdict (dmarc parsed) VPass
                   then trust + dmarc_pass HEADER_TRUST_POINTS else trust in
      let trust := if is_verdict (dmarc parsed) VFail
                   then trust + dmarc_fail HEADER_TRUST_POINTS else trust in
      clamp 0 100 trust
  end.

(** ** background.js: addresses and relay detection *)

(** [/@([^>\s]+)/] *)
Definition re_domain : regex :=
  rseq [chr "@"; RGroup 1 (plus (ncls [CChar ">"; CSpace]))].

Definition truthy_opt (o : option string) : bool :=
  match o with Some s => truthy_str s | None => false end.

(** [a || b] on values that are a string or [null]. *)
Definition or_opt (a b : option string) : option string :=
  if truthy_opt a then a else b.

Definition domainFromAddress (addr : string) : option string :=
  if negb (truthy_str addr) then None
  else
    match exec false re_domain addr with
    | Some m =>
        if truthy_opt (capture addr m 1)
        then option_map toLowerCase (capture addr m 1)
        else None
    | None => None
    end.

(** The name-and-address pattern: group 1 is a greedy run of any
    characters, then [<], group 2 a non-empty run of characters other than
    [>], then [>]. *)
Definition re_name_addr : regex :=
  rseq [RGroup 1 (RStar RAny); chr "<";
        RGroup 2 (plus (ncls [CChar ">"])); chr ">"].

(** [/[A-Z0-9._%+-]+@[A-Z0-9.-]+\.[A-Z]{2,}/i] *)
Definition re_email : regex :=
  rseq [plus (cls [CRange "A" "Z"; CRange "0" "9"; CChar "."; CChar "_";
                   CChar "%"; CChar "+"; CChar "-"]);
        chr "@";
        plus (cls [CRange "A" "Z"; CRange "0" "9"; CChar "."; CChar "-"]);
        chr ".";
        at_least 2 (cls [CRange "A" "Z"])].

Record NameAndEmail : Type := { displayName : string; email : string }.

Definition displayNameAndEmail (fromHeader : string) : NameAndEmail :=
  if negb (truthy_str fromHeader) then {| displayName := ""; email := "" |}
  else
    match exec false re_name_addr fromHeader with
    | Some m =>
        {| displayName := trim (default "" (capture fromHeader m 1));
           email := trim (default "" (capture fromHeader m 2)) |}
    | None =>
        let e := option_map (matched fromHeader) (exec true re_email fromHeader) in
        {| displayName := trim (remove_first (default "" e) fromHeader);
           email := default "" e |}
    end.

(** [headers[k]], with a missing header read as the empty string: every
    use is under [||] or a truthiness test, where [undefined] and [''] act
    alike. *)
Definition header (headers : gmap string string) (k : string) : string :=
  default "" (headers !! k).

Definition detectGoogleRelay (headers : gmap string string) : bool :=
  let keys := map (fun kv => toLowerCase (fst kv)) (map_to_list headers) in
  if existsb (fun k => includes k "x-google-smtp-source") keys then true
  else if existsb (fun k => includes k "x-google") keys then true
  else if existsb (fun k => includes k "x-gm-") keys then true
  else if existsb (fun k => includes k "arc-seal") keys then true
  else if truthy_str (or_str (header headers "Delivered-To")
                             (header headers "delivered-to")) then true
  else false.

(** ** background.js: the timed caches *)

Record CacheEntry (A : Type) : Type := {
  ts : Z;
  data : A;
  ttl : Z
}.
Arguments ts {A} _.
Arguments data {A} _.
Arguments ttl {A} _.

(** [v.ttl || CACHE_TTL_MS] *)
Definition effective_ttl (ttl : Z) : Z :=
  if ttl =? 0 then CACHE_TTL_MS else ttl.

Section Cache.
Context {A : Type}.

(** [now] is the value of [Date.now()] during the call. *)
Definition cacheSet (cacheMap : gmap string (CacheEntry A)) (key : string)
    (data : A) (ttl : Z) (now : Z) : gmap string (CacheEntry A) :=
  <[key := {| ts := now; data := data; ttl := ttl |}]> cacheMap.

(** The result ([None] is [null]) and the cache after the call. *)
Definition cacheGet (cacheMap : gmap string (CacheEntry A)) (key : string)
    (now : Z) : option A * gmap string (CacheEntry A) :=
  match cacheMap !! key with
  | None => (None, cacheMap)
  | Some v =>
      if now - ts v >? effective_ttl (ttl v)
      then (None, delete key cacheMap)
      else (Some (data v), cacheMap)
  end.
End Cache.

(** ** background.js: the trusted-sender ledger *)

Record TrustRecord : Type := {
  count : Z;
  last : Z
}.

(** The read-modify-write of [chrome.storage.local], taken as one step;
    the result is the stored [trustedSenders] map. *)
Definition addTrustedSenderDomain (domain : option string) (now : Z)
    (map : gmap string TrustRecord) : gmap string TrustRecord :=
  match domain with
  | Some d =>
      if negb (truthy_str d) then map
      else
        let rec0 := default {| count := 0; last := now |} (map !! d) in
        <[d := {| count := (if count rec0 =? 0 then 0 else count rec0) + 1;
                  last := now |}]> map
  | None => map
  end.

Definition getTrustedSenderBoost (domain : option string)
    (map : gmap string TrustRecord) : Z :=
  match domain with
  | Some d =>
      if negb (truthy_str d) then 0
      else
        match map !! d with
        | None => 0
        | Some rec0 => Z.min TRUST_BOOST_FROM_HISTORY (count rec0 * 5)
        end
  | None => 0
  end.

(** The part of the [feedback] handler that feeds the ledger. *)
Definition feedback_update (label fromText : string) (now : Z)
    (map : gmap string TrustRecord) : gmap string TrustRecord :=
  if String.eqb label "safe" && truthy_str fromText then
    let dom := domainFromAddress (email (displayNameAndEmail fromText)) in
    if truthy_opt dom then addTrustedSenderDomain dom now map else map
  else map.


(** ** background.js: collaborators, state and messages *)

(** What an awaited call does: it returns, or it throws [String(err)]. *)
Inductive outcome (A : Type) : Type :=
| Returns (a : A)
| Throws (err : string).
Arguments Returns {A} _.
Arguments Throws {A} _.

(** The reply of the [/predict] endpoint.  [MlThrows]: the request is
    rejected, the body is not JSON, or the JSON value is [null] (reading a
    field of it throws).  [MlJson a b]: any other JSON value, with
    [json.ml_score = a] and [json.score = b] ([JUndefined] when absent). *)
Inductive ml_reply : Type :=
| MlThrows
| MlJson (ml_score score : jsval).

Record Collaborators : Type := {
  getGmailToken : outcome string;                       (* non-interactive *)
  findMessageId : outcome (option string);              (* an id or [null] *)
  fetchMessageMetadata : outcome (gmap string string);  (* the header map *)
  ml_backend : string -> ml_reply                       (* [/predict] on a text *)
}.

(** The payload of a request; an absent text field is the empty string,
    an absent number is [None]. *)
Record Payload : Type := {
  fromText : string;
  subjectText : string;
  snippetText : string;
  localScore : option number;
  local : option number
}.

(** What the handlers cache under a message id or a query key.  The entry
    written by [get_scores] has no [envelopeMismatch] and no [googleRelay]
    field. *)
Record HeaderResult : Type := {
  messageId : string;
  headers : gmap string string;
  parsed : AuthVerdict;
  trustBoost : Z;
  envelopeMismatch : option bool;
  googleRelay : option bool
}.

Record State : Type := {
  HEADER_CACHE : gmap string (CacheEntry HeaderResult);
  QUERY_CACHE : gmap string (CacheEntry HeaderResult);
  trustedSenders : gmap string TrustRecord
}.

Inductive HeadersResponse : Type :=
| HeadersOk (result : HeaderResult)      (* { ok: true, ...result } *)
| HeadersError (error : string).         (* { ok: false, error } *)

Record ScoresResponse : Type := {
  ok : bool;
  resp_localScore : number;
  resp_ml_score : number;
  resp_headerTrust : Z;
  final_score : number
}.

(** ** background.js: the [get_headers] handler *)

Definition domains_differ (envDomain displayDomain : option string) : bool :=
  match envDomain, displayDomain with
  | Some e, Some d => truthy_str e && truthy_str d && negb (String.eqb e d)
  | _, _ => false
  end.

(** The adjustments [get_headers] makes to the trust of the parsed
    verdicts, in the order of the handler: envelope mismatch, relay,
    history.  The result is the trust and the two flags. *)
Definition adjust_trust (trust : Z) (headers : gmap string string)
    (payload : Payload) (ledger : gmap string TrustRecord) : Z * bool * bool :=
  let fromHeader :=
    or_str (or_str (or_str (header headers "From") (header headers "from"))
                   (fromText payload)) "" in
  let returnPath :=
    or_str (or_str (or_str (header headers "Return-Path")
                           (header headers "return-path"))
                   (header headers "Return-Path:")) "" in
  let fromEmail := email (displayNameAndEmail (or_str fromHeader "")) in
  let envDomain := or_opt (domainFromAddress returnPath)
                          (domainFromAddress fromEmail) in
  let displayDomain := domainFromAddress fromEmail in
  let envelopeMismatch := domains_differ envDomain displayDomain in
  let trust := if envelopeMismatch then Z.max 0 (trust - 30) else trust in
  let googleRelay := detectGoogleRelay headers in
  let trust := if googleRelay then Z.min 100 (trust + 20) else trust in
  let domain := or_opt displayDomain envDomain in
  let historyBoost := getTrustedSenderBoost domain ledger in
  let trust := if historyBoost =? 0 then trust
               else Z.min 100 (trust + historyBoost) in
  (trust, envelopeMismatch, googleRelay).

(** The header signals of a fetched message (the handler from the header
    map to [result]). *)
Definition header_result (msgId : string) (headers : gmap string string)
    (payload : Payload) (ledger : gmap string TrustRecord) : HeaderResult :=
  let authRaw :=
    or_str (or_str (or_str (header headers "Authentication-Results")
                           (header headers "Authentication-results"))
                   (header headers "Authentication-Results:")) "" in
  let parsed := parseAuthResults (JStr authRaw) in
  let trust := headerTrustFromParsed (Some parsed) in
  let '(trust, envelopeMismatch, googleRelay) :=
    adjust_trust trust headers payload ledger in
  {| messageId := msgId;
     headers := headers;
     parsed := parsed;
     trustBoost := trust;
     envelopeMismatch := Some envelopeMismatch;
     googleRelay := Some googleRelay |}.

Definition with_query_cache (st : State) qc : State :=
  {| HEADER_CACHE := HEADER_CACHE st; QUERY_CACHE := qc;
     trustedSenders := trustedSenders st |}.

Definition with_header_cache (st : State) hc : State :=
  {| HEADER_CACHE := hc; QUERY_CACHE := QUERY_CACHE st;
     trustedSenders := trustedSenders st |}.

Definition get_headers (c : Collaborators) (payload : Payload) (now : Z)
    (st : State) : HeadersResponse * State :=
  let queryKey :=
    fromText payload +:+ "||" +:+ subjectText payload +:+ "||" +:+
    snippetText payload in
  let '(cached, qc) := cacheGet (QUERY_CACHE st) queryKey now in
  let st := with_query_cache st qc in
  match cached with
  | Some r => (HeadersOk r, st)
  | None =>
      let token := match getGmailToken c with
                   | Returns t => Some t
                   | Throws _ => None
                   end in
      if negb (truthy_opt token) then (HeadersError "no_token", st)
      else
        match findMessageId c with
        | Throws err => (HeadersError err, st)
        | Returns None => (HeadersError "no_message", st)
        | Returns (Some msgId) =>
            if negb (truthy_str msgId) then (HeadersError "no_message", st)
            else
              let '(headerCached, hc) := cacheGet (HEADER_CACHE st) msgId now in
              let st := with_header_cache st hc in
              match headerCached with
              | Some r =>
                  (HeadersOk r,
                   with_query_cache st
                     (cacheSet (QUERY_CACHE st) queryKey r QUERY_CACHE_TTL_MS now))
              | None =>
                  match fetchMessageMetadata c with
                  | Throws err => (HeadersError err, st)
                  | Returns headers =>
                      let result :=
                        header_result msgId headers payload (trustedSenders st) in
                      let st := with_header_cache st
                        (cacheSet (HEADER_CACHE st) msgId result CACHE_TTL_MS now) in
                      (HeadersOk result,
                       with_query_cache st
                         (cacheSet (QUERY_CACHE st) queryKey result
                                   QUERY_CACHE_TTL_MS now))
                  end
              end
        end
  end.

(** ** background.js: the [get_scores] handler *)

(** [a || b] on numbers. *)
Definition or_num (a b : number) : number := if truthy_num a then a else b.

(** [a || b] on integers. *)
Definition or_Z (a b : Z) : Z := if a =? 0 then b else a.

(** The score read from the reply of the ML backend; the [catch] block
    gives [null]. *)
Definition read_ml_score (reply : ml_reply) : jsval :=
  match reply with
  | MlThrows => JNull
  | MlJson a b =>
      let ml_score := js_or (js_or a b) JNull in
      match ml_score with
      | JStr s => JNum (parseFloat s)
      | _ => ml_score
      end
  end.

(** The header trust of a fetched message as [get_scores] computes it. *)
Definition scores_header_trust (headers : gmap string string)
    (payload : Payload) (ledger : gmap string TrustRecord)
    : AuthVerdict * Z :=
  let parsed :=
    parseAuthResults (JStr (or_str (header headers "Authentication-Results") "")) in
  let headerTrust := headerTrustFromParsed (Some parsed) in
  let headerTrust := if detectGoogleRelay headers
                     then Z.min 100 (headerTrust + 20) else headerTrust in
  let fromEmail :=
    email (displayNameAndEmail
             (or_str (or_str (header headers "From") (fromText payload)) "")) in
  let envDomain :=
    or_opt (domainFromAddress (or_str (header headers "Return-Path") ""))
           (domainFromAddress fromEmail) in
  let displayDomain := domainFromAddress fromEmail in
  let headerTrust := if domains_differ envDomain displayDomain
                     then Z.max 0 (headerTrust - 30) else headerTrust in
  let domain := or_opt displayDomain envDomain in
  let historyBoost := getTrustedSenderBoost domain ledger in
  let headerTrust := if historyBoost =? 0 then headerTrust
                     else Z.min 100 (headerTrust + historyBoost) in
  (parsed, headerTrust).

(** The attempt to fetch the header trust: the trust and the header cache
    after it.  Every failure leaves the neutral 50. *)
Definition fetch_header_trust (c : Collaborators) (payload : Payload)
    (now : Z) (st : State) : Z * gmap string (CacheEntry HeaderResult) :=
  let headerTrust := 50 in
  let token := match getGmailToken c with
               | Returns t => Some t
               | Throws _ => None
               end in
  if truthy_opt token then
    match findMessageId c with
    | Throws _ => (headerTrust, HEADER_CACHE st)
    | Returns msgId =>
        match msgId with
        | Some id =>
            if truthy_str id then
              let '(cached, hc) := cacheGet (HEADER_CACHE st) id now in
              match cached with
              | Some r => (or_Z (trustBoost r) headerTrust, hc)
              | None =>
                  match fetchMessageMetadata c with
                  | Throws _ => (headerTrust, hc)
                  | Returns headers =>
                      let '(parsed, headerTrust) :=
                        scores_header_trust headers payload (trustedSenders st) in
                      (headerTrust,
                       cacheSet hc id
                         {| messageId := id; headers := headers;
                            parsed := parsed; trustBoost := headerTrust;
                            envelopeMismatch := None; googleRelay := None |}
                         CACHE_TTL_MS now)
                  end
              end
            else (headerTrust, HEADER_CACHE st)
        | None => (headerTrust, HEADER_CACHE st)
        end
    end
  else (headerTrust, HEADER_CACHE st).

(** The final ensemble: [mlVal] and [finalScore]. *)
Definition ensemble (localScore : number) (ml_score : jsval) (headerTrust : Z)
    : number * number :=
  let mlVal := match ml_score with
               | JNum n => n
               | _ => localScore
               end in
  let headerSuspicion := nsub (num_of_Z 100) (num_of_Z (or_Z headerTrust 50)) in
  let final :=
    Math_round
      (nadd (nadd (nmul localScore (or_num (w_local WEIGHTS) (num_of_Z 0)))
                  (nmul mlVal (or_num (w_ml WEIGHTS) (num_of_Z 0))))
            (nmul headerSuspicion (or_num (w_header WEIGHTS) (num_of_Z 0)))) in
  let finalScore := Math_max (num_of_Z 0) (Math_min MAX_SCORE final) in
  (mlVal, finalScore).

Definition get_scores (c : Collaborators) (payload : Payload) (now : Z)
    (st : State) : ScoresResponse * State :=
  let localScore :=
    match localScore payload with
    | Some n => n
    | None => or_num (default (Fin 0) (local payload)) (num_of_Z 50)
    end in
  let text :=
    trim (fromText payload +:+ " " +:+ subjectText payload +:+ " " +:+
          snippetText payload) in
  let ml_score := read_ml_score (ml_backend c text) in
  let '(headerTrust, hc) := fetch_header_trust c payload now st in
  let '(mlVal, finalScore) := ensemble localScore ml_score headerTrust in
  ({| ok := true;
      resp_localScore := localScore;
      resp_ml_score := mlVal;
      resp_headerTrust := headerTrust;
      final_score := finalScore |},
   with_header_cache st hc).


(** ** content.js: [computeLocalScore] *)

Definition veryStrong : list string :=
  ["account suspended"; "wire transfer"; "payment required"; "verify account";
   "verify your account"; "reset your password"; "action required";
   "confirm your account"; "your account has been suspended"; "unauthorized"].

Definition strong : list string :=
  ["urgent"; "verify"; "verification"; "reset"; "password"; "account";
   "suspended"; "security alert"; "click"; "confirm"; "immediately";
   "limited time"; "invoice"; "sign-in"].

Definition suspiciousTLDs : list string :=
  [".xyz"; ".top"; ".club"; ".ru"; ".tk"; ".cf"; ".ga"; ".gq"; ".ml"].

(** The [brands] of [computeLocalScore]. *)
Definition score_brands : list string :=
  ["google"; "paypal"; "amazon"; "microsoft"; "apple"; "bank"; "facebook";
   "linkedin"].

(** The URL pattern: [http], an optional [s], [://], then one or more
    characters other than white space and [)]; flags [gi]. *)
Definition re_url : regex :=
  rseq [lit "http"; opt (chr "s"); lit "://"; plus (ncls [CSpace; CChar ")"])].

(** A URL whose host is a dotted quad: a word boundary, the scheme, one to
    three digits, three times a dot and one to three digits, then [:] or
    [/]. *)
Definition re_ip_url : regex :=
  rseq [RWordB; lit "http"; opt (chr "s"); lit "://"; rep 1 2 digit;
        rep 3 0 (RGroup 1 (RSeq (chr ".") (rep 1 2 digit)));
        cls [CChar ":"; CChar "/"]].

(** The words [attachment] and [paperclip] between word boundaries; flag
    [i]. *)
Definition re_attachment : regex :=
  RAlt (rseq [RWordB; lit "attachment"; RWordB])
       (rseq [RWordB; lit "paperclip"; RWordB]).

(** [forEach] over a list with a conditional [score += w]. *)
Definition add_each {A : Type} (w : Z) (hit : A -> bool) (l : list A)
    (score : Z) : Z :=
  fold_left (fun score x => if hit x then score + w else score) l score.

(** The body of the [urls.forEach] callback. *)
Definition score_url (score : Z) (u : string) : Z :=
  let low := toLowerCase u in
  let score := add_each 18 (fun t => includes low t) suspiciousTLDs score in
  let score := if test false re_ip_url low then score + 20 else score in
  let score := if includes low "xn--" then score + 20 else score in
  let score := if (Z.of_nat (String.length low) >? 90) then score + 8 else score in
  score.

(** [x > 0.4] on exact rationals. *)
Definition exceeds (x bound : Q) : bool := negb (Qle_bool x bound).

(** [rnd] is the value of [Math.random()], in [0, 1). *)
Definition computeLocalScore (fromText subjectText snippetText rowText : string)
    (rnd : Q) : Z :=
  let score := 0 in
  let subj := trim (or_str subjectText "") in
  let combined :=
    toLowerCase (subj +:+ " " +:+ snippetText +:+ " " +:+ rowText +:+ " " +:+
                 or_str fromText "") in
  let score := add_each 30 (fun k => includes combined k) veryStrong score in
  let score := add_each 12 (fun k => includes combined k) strong score in
  let urls := match_all true re_url snippetText in
  let score := if (1 <=? List.length urls)%nat then score + 25 else score in
  let score := if (2 <=? List.length urls)%nat then score + 10 else score in
  let score := fold_left score_url urls score in
  let score :=
    add_each 22
      (fun b => includes combined b &&
                negb (includes (toLowerCase (or_str fromText "")) b))
      score_brands score in
  let score :=
    if truthy_str fromText then
      let emailLike := option_map (matched fromText) (exec true re_email fromText) in
      let score := if negb (truthy_opt emailLike) then score + 6 else score in
      let score :=
        if (String.length (remove_chars is_space fromText) <=? 2)%nat
        then score + 12 else score in
      score
    else score in
  let exclam := Z.of_nat (count_chars (Ascii.eqb "!") subj) in
  let score := if exclam >? 0 then score + Z.min 12 (exclam * 4) else score in
  let uppercaseShare :=
    (inject_Z (Z.of_nat (String.length (remove_chars (fun c => negb (is_upper c)) subj)))
     / inject_Z (Z.max 1 (or_Z (Z.of_nat (String.length subj)) 1)))%Q in
  let score := if exceeds uppercaseShare (4 # 10) then score + 18 else score in
  let score := if test true re_attachment (or_str rowText "") then score + 10
               else score in
  Z.min 100 (round_half_up (inject_Z score + rnd * 4)).

(** ** content.js: [estimateLinkRisk] *)

(** The dotted-quad pattern: four groups of one to three digits separated
    by dots, anywhere in the string. *)
Definition re_dotted_quad : regex :=
  rseq [rep 1 2 digit; chr "."; rep 1 2 digit; chr "."; rep 1 2 digit;
        chr "."; rep 1 2 digit].

(** The [brands] of [estimateLinkRisk]. *)
Definition link_brands : list string :=
  ["google"; "microsoft"; "paypal"; "facebook"].

(** [url.includes(brand) && !url.includes(`.${brand}.`)] *)
Definition brand_without_domain (url brand : string) : bool :=
  includes url brand && negb (includes url ("." +:+ brand +:+ ".")).

Definition estimateLinkRisk (url : string) : Z :=
  let risk := 0 in
  let risk := if includes url "ngrok-free.app" || includes url "ngrok.io"
              then risk + 70 else risk in
  let risk := if test false re_dotted_quad url then risk + 80 else risk in
  let risk := if includes url "verify" && includes url "google"
              then risk + 90 else risk in
  let risk := if includes url "login" || includes url "reset" ||
                 includes url "forgot"
              then risk + 50 else risk in
  let risk := if includes url "http://" then risk + 30 else risk in
  let risk := add_each 60 (brand_without_domain url) link_brands risk in
  Z.min 100 risk.

(** ** content.js: the risk tier and the click gate *)

(** The class of the quick assessment in [buildEnhancedAnalysisHTML]. *)
Inductive tier : Type := high | medium | low.

Definition risk_tier (quickRisk : Z) : tier :=
  if quickRisk >? 70 then high
  else if quickRisk >? 40 then medium
  else low.

Definition alts (rs : list regex) : regex :=
  match rs with
  | [] => REmpty
  | r :: rs' => fold_left RAlt rs' r
  end.

Definition any_star : regex := RStar RAny.

(** The [suspiciousPatterns] of [isSuspiciousUrl], each with its [i]
    flag. *)
Definition suspiciousPatterns : list (bool * regex) :=
  [ (false, re_dotted_quad);
    (true, rseq [chr ".";
                 RGroup 1 (alts (map lit ["xyz"; "top"; "club"; "ru"; "tk"; "cf";
                                          "ga"; "gq"; "ml"; "ngrok"; "localtest"]));
                 REnd]);
    (true, alts (map lit ["login"; "verify"; "account"; "password"; "reset";
                          "forgot"]));
    (false, RAlt (lit "ngrok-free.app") (lit "ngrok.io"));
    (true, RAlt (rseq [lit "verify"; any_star; lit "google"])
                (rseq [lit "google"; any_star; lit "verify"]));
    (true, RAlt (rseq [lit "security"; any_star; lit "alert"])
                (rseq [lit "alert"; any_star; lit "security"]));
    (true, RAlt (rseq [lit "unusual"; any_star; lit "activity"])
                (rseq [lit "activity"; any_star; lit "unusual"])) ].

(** The [brands] of [isSuspiciousUrl]. *)
Definition suspicious_brands : list string :=
  ["google"; "microsoft"; "paypal"; "facebook"; "amazon"; "apple"; "bank"].

Definition isSuspiciousUrl (url : string) : bool :=
  let urlLower := toLowerCase url in
  if existsb (brand_without_domain urlLower) suspicious_brands then true
  else existsb (fun p => test (fst p) (snd p) url) suspiciousPatterns.

(** What the click handler of [protectSuspiciousLinks] does with a click:
    it cancels the navigation and opens the warning popup, or it lets the
    link through. *)
Inductive ClickAction : Type := Intercepted | Allowed.

(** The test of the click handler on its two signals. *)
Definition gate (urlSuspicious : bool) (combinedRisk : Z) : ClickAction :=
  if urlSuspicious || (combinedRisk >? 60) then Intercepted else Allowed.

(** [emailRiskScore] is the risk of the enclosing mail row, 0 when there is
    none. *)
Definition click_handler (url : string) (emailRiskScore : Z) : ClickAction :=
  let urlSuspicious := isSuspiciousUrl url in
  let urlRisk := estimateLinkRisk url in
  let combinedRisk := if emailRiskScore >? 0 then Z.max urlRisk emailRiskScore
                      else urlRisk in
  gate urlSuspicious combinedRisk.


(** ** Vocabulary of the specification *)

(** [tok] occurs in [s] in some letter case. *)
Definition occurs_ci (tok s : string) : Prop :=
  exists pre mid post, s = pre +:+ mid +:+ post /\ toLowerCase mid = tok.

(** A ledger as the data model has it: no negative count. *)
Definition ledger_wf (ledger : gmap string TrustRecord) : Prop :=
  forall d r, ledger !! d = Some r -> 0 <= count r.

(** A run of [recordSafe] events: the domain and the time of each. *)
Definition record_all (events : list (option string * Z))
    (ledger : gmap string TrustRecord) : gmap string TrustRecord :=
  fold_left (fun m ev => addTrustedSenderDomain (fst ev) (snd ev) m)
            events ledger.


(** The contribution of a verdict to the trust: [w] for a pass, [-w] for
    a fail, nothing for [null]. *)
Definition delta (o : option verdict) (w : Z) : Z :=
  match o with
  | Some VPass => w
  | Some VFail => - w
  | None => 0
  end.


(** The ensemble as the specification words it: the weighted sum of the
    local score, the ML score and the header suspicion [100 - trust],
    rounded to the nearest integer and clamped to [0,100]. *)
Definition ensemble_spec (local ml : Q) (headerTrust : Z) : Z :=
  clamp 0 100
    (round_half_up ((25 # 100) * local + (50 # 100) * ml +
                    (20 # 100) * inject_Z (100 - headerTrust))).

(** The weighted sum that [get_scores] rounds, on finite scores, for the
    trust [t] that enters the suspicion. *)
Definition weighted_sum (l m : Q) (t : Z) : Q :=
  (l * (25 # 100) + m * (50 # 100) +
   (inject_Z 100 + - inject_Z t) * (20 # 100))%Q.

(** The final score, as an integer, on finite scores. *)
Definition final_of (l m : Q) (t : Z) : Z :=
  clamp 0 100 (round_half_up (weighted_sum l m (or_Z t 50))).

(** The ways the ML signal can be missing: the call throws, the reply has
    no truthy score, or its score is neither a number nor a string. *)
Inductive ml_fails : ml_reply -> Prop :=
| ml_unreachable : ml_fails MlThrows
| ml_no_score (a b : jsval) :
    truthy a = false -> truthy b = false -> ml_fails (MlJson a b)
| ml_not_a_score (a b : jsval) :
    js_or a b = JBool true \/ js_or a b = JObject -> ml_fails (MlJson a b).

(** The ways the header signal can be missing: no token, a failed search,
    no message, or a failed fetch of a message that is not cached. *)
Inductive header_fetch_fails (c : Collaborators) (st : State) (now : Z) : Prop :=
| no_token (err : string) :
    getGmailToken c = Throws err -> header_fetch_fails c st now
| search_fails (err : string) :
    findMessageId c = Throws err -> header_fetch_fails c st now
| no_message :
    findMessageId c = Returns None -> header_fetch_fails c st now
| metadata_fails (id err : string) :
    findMessageId c = Returns (Some id) ->
    fst (cacheGet (HEADER_CACHE st) id now) = None ->
    fetchMessageMetadata c = Throws err ->
    header_fetch_fails c st now.

(** The gate as the specification words it. *)
Inductive GateVerdict : Type := allow | warn | block.

Definition gate_spec (s : Z) (p : bool) : GateVerdict :=
  if s >? 70 then block
  else if s >? 40 then warn
  else if p then warn else allow.

(** What a verdict asks of the click handler: only [allow] lets the link
    through. *)
Definition action_of (v : GateVerdict) : ClickAction :=
  match v with
  | allow => Allowed
  | warn | block => Intercepted
  end.

(** A check worth [w] points. *)
Definition points (hit : bool) (w : Z) : Z := if hit then w else 0.

(** How many elements of a list pass a check. *)
Definition count_hits {A : Type} (hit : A -> bool) (l : list A) : Z :=
  Z.of_nat (List.length (List.filter hit l)).

Definition sum_over {A : Type} (f : A -> Z) (l : list A) : Z :=
  fold_right (fun x acc => f x + acc) 0 l.

(** The additive checks of the link estimate. *)
Definition link_checks (url : string) : Z :=
  points (includes url "ngrok-free.app" || includes url "ngrok.io") 70 +
  points (test false re_dotted_quad url) 80 +
  points (includes url "verify" && includes url "google") 90 +
  points (includes url "login" || includes url "reset" ||
          includes url "forgot") 50 +
  points (includes url "http://") 30 +
  60 * count_hits (brand_without_domain url) link_brands.

(** The structural penalties of one URL. *)
Definition url_contribution (u : string) : Z :=
  let low := toLowerCase u in
  18 * count_hits (fun t => includes low t) suspiciousTLDs +
  points (test false re_ip_url low) 20 +
  points (includes low "xn--") 20 +
  points (Z.of_nat (String.length low) >? 90) 8.

(** The two sender checks: no email-like token, and at most two characters
    besides white space. *)
Definition sender_checks (fromText : string) : Z :=
  points (negb (truthy_opt (option_map (matched fromText)
                                       (exec true re_email fromText)))) 6 +
  points (String.length (remove_chars is_space fromText) <=? 2)%nat 12.

(** The sender checks as the code applies them: to a non-empty sender
    only. *)
Definition sender_contribution (fromText : string) : Z :=
  if truthy_str fromText then sender_checks fromText else 0.

Definition uppercase_share (subj : string) : Q :=
  (inject_Z (Z.of_nat (String.length (remove_chars (fun c => negb (is_upper c)) subj)))
   / inject_Z (Z.max 1 (or_Z (Z.of_nat (String.length subj)) 1)))%Q.

(** The sum of the listed contributions of the lexical score, for a given
    reading of the sender checks. *)
Definition lexical_sum (sender_part : string -> Z)
    (fromText subjectText snippetText rowText : string) : Z :=
  let subj := trim subjectText in
  let combined :=
    toLowerCase (subj +:+ " " +:+ snippetText +:+ " " +:+ rowText +:+ " " +:+
                 fromText) in
  let urls := match_all true re_url snippetText in
  30 * count_hits (fun k => includes combined k) veryStrong +
  12 * count_hits (fun k => includes combined k) strong +
  points (1 <=? List.length urls)%nat 25 +
  points (2 <=? List.length urls)%nat 10 +
  sum_over url_contribution urls +
  22 * count_hits (fun b => includes combined b &&
                            negb (includes (toLowerCase fromText) b))
                  score_brands +
  sender_part fromText +
  Z.min 12 (4 * Z.of_nat (count_chars (Ascii.eqb "!") subj)) +
  points (exceeds (uppercase_share subj) (4 # 10)) 18 +
  points (test true re_attachment rowText) 10.

(** The jitter: [Math.random() * 4] after the rounding of the total. *)
Definition jitter (rnd : Q) : Z := round_half_up (rnd * 4).

(** The invariant of the handler state: every cached result carries a
    trust of [0,100] and the ledger has no negative count. *)
Definition trust_in_range (r : HeaderResult) : Prop :=
  0 <= trustBoost r <= 100.

Definition cache_in_range (m : gmap string (CacheEntry HeaderResult)) : Prop :=
  map_Forall (fun _ e => trust_in_range (data e)) m.

Definition state_ok (st : State) : Prop :=
  cache_in_range (HEADER_CACHE st) /\ cache_in_range (QUERY_CACHE st) /\
  ledger_wf (trustedSenders st).

(** ** Scenarios *)

Definition empty_state : State :=
  {| HEADER_CACHE := ∅; QUERY_CACHE := ∅; trustedSenders := ∅ |}.

(** A request with a local score of 20. *)
Definition request_20 : Payload :=
  {| fromText := "Bank <alerts@bank.example>";
     subjectText := "Statement";
     snippetText := "Your statement is ready";
     localScore := Some (num_of_Z 20);
     local := None |}.

(** A message that fails the three checks; the ML backend answers 20. *)
Definition spoofed_mail : Collaborators :=
  {| getGmailToken := Returns "token";
     findMessageId := Returns (Some "m-1");
     fetchMessageMetadata :=
       Returns {[ "Authentication-Results" :=
                    "mx.example; spf=fail dkim=fail dmarc=fail";
                  "From" := "Bank <alerts@bank.example>" ]};
     ml_backend := fun _ => MlJson (JNum (num_of_Z 20)) JUndefined |}.

(** No token, and an ML backend whose score is the string [n/a]. *)
Definition broken_backend : Collaborators :=
  {| getGmailToken := Throws "Error: No token";
     findMessageId := Returns None;
     fetchMessageMetadata := Throws "Error: Gmail API 401: ";
     ml_backend := fun _ => MlJson (JStr "n/a") JUndefined |}.

(** Nothing answers: no token, and the ML backend is unreachable. *)
Definition offline : Collaborators :=
  {| getGmailToken := Throws "Error: No token";
     findMessageId := Throws "Error: Gmail API 401: ";
     fetchMessageMetadata := Throws "Error: Gmail API 401: ";
     ml_backend := fun _ => MlThrows |}.

(** No token, and an ML backend that answers the score 0. *)
Definition zero_score_backend : Collaborators :=
  {| getGmailToken := Throws "Error: No token";
     findMessageId := Returns None;
     fetchMessageMetadata := Throws "Error: Gmail API 401: ";
     ml_backend := fun _ => MlJson (JNum (num_of_Z 0)) JUndefined |}.

(** A request with a local score of 80. *)
Definition request_80 : Payload :=
  {| fromText := "Prize Team";
     subjectText := "URGENT";
     snippetText := "verify your account";
     localScore := Some (num_of_Z 80);
     local := None |}.


(** A relayed message whose envelope and display domains differ. *)
Definition relayed_headers : gmap string string :=
  {[ "Authentication-Results" := "mx.example; spf=pass dkim=pass dmarc=pass";
     "From" := "Bank <alerts@bank.example>";
     "Return-Path" := "<bounce@mailer.example>";
     "X-Google-Smtp-Source" := "abc" ]}.

(** The ledger after two confirmations of [bank.example]. *)
Definition ledger_two : gmap string TrustRecord :=
  record_all [(Some "bank.example", 1000); (Some "bank.example", 2000)] ∅.



(** ** background.js: [fetchMessageMetadata] and [findMessageId] *)


Definition dquote : ascii := "034"%char.
Definition backslash : ascii := "092"%char.

(** The [replace] of [safe], whose pattern is the double quote with the
    [g] flag: every double quote is replaced by a backslash and a double
    quote. *)
Definition escape_quotes (s : string) : string :=
  string_of_list_ascii
    (flat_map (fun c => if Ascii.eqb c dquote then [backslash; dquote] else [c])
              (list_ascii_of_string s)).

(** The [safe] of [findMessageId]. *)
Definition safe (s : string) : string := trim (escape_quotes (or_str s "")).

(** [parts.join(sep)] *)
Fixpoint join (sep : string) (parts : list string) : string :=
  match parts with
  | [] => ""
  | [x] => x
  | x :: rest => x +:+ sep +:+ join sep rest
  end.

Definition quoted (s : string) : string :=
  String dquote (s +:+ String dquote "").

(** The query [q] of [findMessageId]. *)
Definition search_query (payload : Payload) : string :=
  let qParts := [] in
  let qParts := if truthy_str (subjectText payload)
                then qParts ++ ["subject:" +:+ quoted (safe (subjectText payload))]
                else qParts in
  let qParts := if truthy_str (fromText payload)
                then qParts ++ ["from:" +:+ quoted (safe (fromText payload))]
                else qParts in
  let qParts := qParts ++ ["newer_than:14d"] in
  join " " qParts.

(** What [findMessageId] makes of the reply of the search: [messages] is
    [list.messages], as the ids of the messages, [None] when the field is
    missing. *)
Definition first_message_id (messages : option (list string)) : option string :=
  match messages with
  | None => None
  | Some [] => None
  | Some (id :: _) => Some id
  end.

(** ** background.js: the message listener *)

(** A message: its [type] (the empty string when absent), its [payload],
    and for a feedback its [label] and the [fromText] of its [detail]
    ([None] when there is no [detail]). *)
Record Message : Type := {
  msg_type : string;
  msg_payload : option Payload;
  msg_label : string;
  msg_detail : option string
}.

Record FeedbackEntry : Type := {
  fb_ts : Z;
  fb_label : string;
  fb_detail : option string
}.

(** The state of the worker: the caches and the ledger, and the stored
    [phishFeedback] array. *)
Record Worker : Type := {
  handler_state : State;
  phishFeedback : list FeedbackEntry
}.

Inductive Response : Type :=
| RespError (error : string)             (* { ok: false, error } *)
| RespAuth (ok : bool)                   (* { ok } of interactive_auth *)
| RespHeaders (result : HeaderResult)    (* { ok: true, ...result } *)
| RespScores (scores : ScoresResponse)
| RespOk.                                (* { ok: true } *)

Definition empty_payload : Payload :=
  {| fromText := ""; subjectText := ""; snippetText := "";
     localScore := None; local := None |}.

Definition with_ledger (st : State) (ledger : gmap string TrustRecord) : State :=
  {| HEADER_CACHE := HEADER_CACHE st; QUERY_CACHE := QUERY_CACHE st;
     trustedSenders := ledger |}.

(** The listener.  [interactive] is the outcome of the interactive token
    request, [c] the other collaborators, [msg] the message ([None] for a
    missing one) and [now] the clock during the call. *)
Definition onMessage (c : Collaborators) (interactive : outcome string)
    (msg : option Message) (now : Z) (w : Worker) : Response * Worker :=
  match msg with
  | None => (RespError "no_type", w)
  | Some msg =>
      if negb (truthy_str (msg_type msg)) then (RespError "no_type", w)
      else if String.eqb (msg_type msg) "interactive_auth" then
        match interactive with
        | Returns token => (RespAuth (truthy_str token), w)
        | Throws err => (RespError err, w)
        end
      else if String.eqb (msg_type msg) "get_headers" then
        let payload := default empty_payload (msg_payload msg) in
        let '(r, st) := get_headers c payload now (handler_state w) in
        (match r with
         | HeadersOk result => RespHeaders result
         | HeadersError err => RespError err
         end,
         {| handler_state := st; phishFeedback := phishFeedback w |})
      else if String.eqb (msg_type msg) "get_scores" then
        let payload := default empty_payload (msg_payload msg) in
        let '(r, st) := get_scores c payload now (handler_state w) in
        (RespScores r,
         {| handler_state := st; phishFeedback := phishFeedback w |})
      else if String.eqb (msg_type msg) "feedback" then
        let arr := phishFeedback w ++
                   [{| fb_ts := now; fb_label := msg_label msg;
                       fb_detail := msg_detail msg |}] in
        let ledger :=
          feedback_update (msg_label msg) (default "" (msg_detail msg)) now
                          (trustedSenders (handler_state w)) in
        (RespOk,
         {| handler_state := with_ledger (handler_state w) ledger;
            phishFeedback := arr |})
      else (RespError "unknown_type", w)
  end.

(** One delivery: a message with the collaborators and the clock that the
    listener meets when it handles it. *)
Record Delivery : Type := {
  d_collaborators : Collaborators;
  d_interactive : outcome string;
  d_message : option Message;
  d_now : Z
}.

(** The listener over a run of deliveries: the responses and the final
    state. *)
Fixpoint run (ds : list Delivery) (w : Worker) : list Response * Worker :=
  match ds with
  | [] => ([], w)
  | d :: ds' =>
      let '(r, w1) := onMessage (d_collaborators d) (d_interactive d)
                                (d_message d) (d_now d) w in
      let '(rs, w2) := run ds' w1 in
      (r :: rs, w2)
  end.

Definition initial_worker : Worker :=
  {| handler_state := empty_state; phishFeedback := [] |}.

(** ** content.js: the badge of a row *)

(** What [extractInfoFromRow] reads from a row. *)
Record RowInfo : Type := {
  info_fromText : string;
  info_subjectText : string;
  info_snippetText : string;
  info_rowText : string
}.

(** The part of a row the badge code reads and writes: the score of its
    badge, if it has one, and its entry in the [processed] map. *)
Record RowState : Type := {
  row_badge : option Z;
  row_processed : option string
}.

Definition row_hash (info : RowInfo) : string :=
  or_str (info_subjectText info) "" +:+ "||" +:+
  or_str (info_fromText info) "" +:+ "||" +:+
  or_str (info_snippetText info) "".

Definition same_hash (processed : option string) (hash : string) : bool :=
  match processed with
  | Some h => String.eqb h hash
  | None => false
  end.

(** [rnd] is the [Math.random()] of the score, drawn only when the badge is
    rebuilt. *)
Definition insertOrUpdateBadge (info : RowInfo) (rnd : Q) (row : RowState)
    : RowState :=
  let hash := row_hash info in
  let existingBadge := row_badge row in
  if same_hash (row_processed row) hash && bool_decide (is_Some existingBadge)
  then row
  else
    let localScore :=
      computeLocalScore (info_fromText info) (info_subjectText info)
                        (info_snippetText info) (info_rowText info) rnd in
    {| row_badge := Some localScore; row_processed := Some hash |}.

(** ** content.js: the domain analysis *)

Definition string_rev (s : string) : string :=
  string_of_list_ascii (rev (list_ascii_of_string s)).

(** [s.endsWith(suffix)] *)
Definition endsWith (s suffix : string) : bool :=
  startsWith (string_rev suffix) (string_rev s).

Definition isNewDomain (domain : string) : bool :=
  existsb (fun newDomain => includes domain newDomain)
          ["ngrok-free.app"; "localtest.me"; "web.app"; "pages.dev"].

Definition isSuspiciousTld (domain : string) : bool :=
  existsb (fun tld => endsWith domain tld)
          [".xyz"; ".top"; ".club"; ".tk"; ".cf"; ".ga"; ".ml"; ".pp"; ".gdn"].

Definition checkDomainReputation (domain : string) : bool :=
  existsb (fun badDomain => includes domain badDomain)
          ["ngrok-free.app"; "ngrok.io"; "freeaccountverify.com";
           "security-alert-login.com"; "account-verification-portal.com";
           "google-verify.com"; "microsoft-security.com"].

(** The [brands] of [checkBrandImpersonation], in the order of the object. *)
Definition impersonation_brands : list (string * list string) :=
  [("google", ["google"; "gmail"; "youtube"]);
   ("microsoft", ["microsoft"; "outlook"; "hotmail"]);
   ("paypal", ["paypal"]);
   ("facebook", ["facebook"; "fb"]);
   ("amazon", ["amazon"]);
   ("apple", ["apple"; "icloud"])].

Record BrandCheck : Type := {
  isImpersonating : bool;
  brand : option string
}.

(** The test of the inner loop for one brand and one keyword. *)
Definition keyword_hit (domain url brand keyword : string) : bool :=
  includes (toLowerCase url) keyword &&
  negb (includes domain ("." +:+ brand +:+ ".")).

(** The two loops return at the first hit. *)
Definition checkBrandImpersonation (domain url : string) : BrandCheck :=
  match List.find (fun bk => existsb (keyword_hit domain url (fst bk)) (snd bk))
                  impersonation_brands with
  | Some bk => {| isImpersonating := true; brand := Some (fst bk) |}
  | None => {| isImpersonating := false; brand := None |}
  end.

Record DomainAnalysis : Type := {
  da_domain : string;
  da_riskScore : Z;
  da_warnings : list string;
  da_recommendations : list string;
  da_technicalDetails : gmap string string
}.

(** [hostname] is the outcome of [new URL(url).hostname]; a throw is
    caught and gives the default analysis. *)
Definition analyzeDomain (url : string) (hostname : outcome string)
    : DomainAnalysis :=
  match hostname with
  | Throws _ =>
      {| da_domain := url;
         da_riskScore := 50;
         da_warnings := ["Analysis failed - proceeding with caution"];
         da_recommendations := ["Verify this link manually before proceeding"];
         da_technicalDetails := {[ "error" := "Analysis failed" ]} |}
  | Returns domain =>
      let riskScore := 0 in
      let warnings : list string := [] in
      let technicalDetails : gmap string string := ∅ in
      (* 1. domain age and type *)
      let temporary := includes domain "ngrok" || isNewDomain domain in
      let riskScore := if temporary then riskScore + 30 else riskScore in
      let warnings := if temporary
                      then warnings ++ ["New or temporary domain detected"]
                      else warnings in
      let technicalDetails :=
        if temporary
        then <["domainAge" := "Less than 1 year (estimated)"]> technicalDetails
        else technicalDetails in
      (* 2. SSL *)
      let https := startsWith "https://" url in
      let shady := includes domain "ngrok" || isSuspiciousTld domain in
      let technicalDetails :=
        if https then <["ssl" := "Present"]> technicalDetails
        else technicalDetails in
      let riskScore :=
        if https then (if shady then riskScore + 20 else riskScore)
        else riskScore + 25 in
      let warnings :=
        if https
        then (if shady
              then warnings ++ ["HTTPS present but domain is suspicious"]
              else warnings)
        else warnings ++ ["No HTTPS encryption - data transmission is vulnerable"] in
      (* 3. reputation *)
      let reputationResult := checkDomainReputation domain in
      let riskScore := if reputationResult then riskScore + 40 else riskScore in
      let warnings :=
        if reputationResult
        then warnings ++ ["Domain matches known phishing patterns"]
        else warnings in
      (* 4. content *)
      let loginPage := includes url "login" || includes url "verify" in
      let riskScore := if loginPage then riskScore + 15 else riskScore in
      let technicalDetails :=
        if loginPage
        then <["pageType" := "Login/Verification page"]> technicalDetails
        else technicalDetails in
      (* 5. brand impersonation *)
      let brandCheck := checkBrandImpersonation domain url in
      let riskScore := if isImpersonating brandCheck then riskScore + 50
                       else riskScore in
      let warnings :=
        if isImpersonating brandCheck
        then warnings ++ ["Potential " +:+ default "" (brand brandCheck) +:+
                          " impersonation"]
        else warnings in
      let riskScore := Z.min 100 riskScore in
      let recommendations :=
        if riskScore >? 70 then
          ["🚨 HIGH RISK: Do not enter any credentials";
           "Verify the sender's identity through other means"]
        else if riskScore >? 40 then
          ["⚠️ Exercise caution with this link";
           "Check for misspellings in the domain name"]
        else ["✅ Appears safe, but remain vigilant"] in
      {| da_domain := domain;
         da_riskScore := riskScore;
         da_warnings := warnings;
         da_recommendations := recommendations;
         da_technicalDetails := technicalDetails |}
  end.

(** ** content.js: the email header analysis *)

Record EmailData : Type := {
  fromAddress : string;
  fromName : string;
  ed_subject : string;
  receivedDate : string;
  ed_spf : string;
  ed_dkim : string;
  ed_dmarc : string
}.

Definition extractEmailAddress (text : string) : string :=
  match exec true re_email text with
  | Some m => matched text m
  | None => "unknown@example.com"
  end.

(** [text.replace(r, '')] for a pattern without the [g] flag: the first
    match is cut out. *)
Definition remove_match (ci : bool) (r : regex) (text : string) : string :=
  match exec ci r text with
  | Some m =>
      slice 0 (mr_start m) text +:+
      slice (m_pos (mr_final m)) (String.length text) text
  | None => text
  end.

Definition extractName (text : string) : string :=
  or_str (trim (remove_match true re_email text)) "Unknown Sender".

(** The texts of the row ([from], [subject], [date]) and the three
    [Math.random()] draws of the simulated verdicts. *)
Definition extractEmailData (from subject date : string) (r1 r2 r3 : Q)
    : EmailData :=
  {| fromAddress := extractEmailAddress from;
     fromName := extractName from;
     ed_subject := subject;
     receivedDate := date;
     ed_spf := if exceeds r1 (3 # 10) then "PASS" else "FAIL";
     ed_dkim := if exceeds r2 (4 # 10) then "PASS" else "FAIL";
     ed_dmarc := if exceeds r3 (5 # 10) then "PASS" else "FAIL" |}.

Definition isSuspiciousSender (email : string) : bool :=
  existsb (fun domain => includes email domain)
          ["tempmail.com"; "fakeinbox.com"; "throwaway.com"].

Definition calculateHeaderRisk (emailData : EmailData) : Z :=
  let risk := 0 in
  let risk := if String.eqb (ed_spf emailData) "FAIL" then risk + 30 else risk in
  let risk := if String.eqb (ed_dkim emailData) "FAIL" then risk + 25 else risk in
  let risk := if String.eqb (ed_dmarc emailData) "FAIL" then risk + 20 else risk in
  let risk := if isSuspiciousSender (fromAddress emailData) then risk + 15
              else risk in
  Z.min 100 risk.

Definition generateHeaderWarnings (emailData : EmailData) : list string :=
  let warnings := [] in
  let warnings :=
    if String.eqb (ed_spf emailData) "FAIL"
    then warnings ++ ["SPF verification failed - sender may be spoofed"]
    else warnings in
  let warnings :=
    if String.eqb (ed_dkim emailData) "FAIL"
    then warnings ++ ["DKIM signature invalid - email may be tampered with"]
    else warnings in
  let warnings :=
    if String.eqb (ed_dmarc emailData) "FAIL"
    then warnings ++ ["DMARC alignment failed - possible domain impersonation"]
    else warnings in
  warnings.

(** The risk a link inherits from its mail row: 0 outside a row, else the
    header risk of the row. *)
Definition link_email_risk (row : option EmailData) : Z :=
  match row with
  | Some emailData => calculateHeaderRisk emailData
  | None => 0
  end.

(** ** content.js: the certificate scores *)






(** ** content.js: [PasswordProtection] *)

Definition isKnownLegitimateSite (domain : string) : bool :=
  existsb (fun site => includes domain site)
          ["accounts.google.com"; "facebook.com"; "microsoft.com"; "apple.com";
           "paypal.com"; "github.com"].

(** [url] is [window.location.href], [domain] its hostname and
    [hasPasswordField] whether the document holds a password input. *)
Definition isSuspiciousPage (url domain : string) (hasPasswordField : bool)
    : bool :=
  existsb (fun indicator => indicator)
    [ includes domain "ngrok";
      includes domain "localhost";
      test false re_dotted_quad domain;
      includes url "login" && negb (includes url "accounts.google.com");
      hasPasswordField && negb (isKnownLegitimateSite domain) ].

(** The state of the protection on a page: the [userWarned] flag, and what
    it has done so far: the warnings it has put on the page and the fields
    it has made read-only (each for two seconds). *)
Record Protection : Type := {
  userWarned : bool;
  warnings_shown : nat;
  autofill_disabled : list string
}.

Definition showPasswordWarning (p : Protection) : Protection :=
  if userWarned p then p
  else {| userWarned := true;
          warnings_shown := S (warnings_shown p);
          autofill_disabled := autofill_disabled p |}.

Definition temporarilyDisableAutoFill (passwordField : string) (p : Protection)
    : Protection :=
  {| userWarned := userWarned p;
     warnings_shown := warnings_shown p;
     autofill_disabled := autofill_disabled p ++ [passwordField] |}.

(** The focus listener of a protected field; [suspicious] is the value of
    [isSuspiciousPage()] at the focus. *)
Definition on_focus (passwordField : string) (suspicious : bool)
    (p : Protection) : Protection :=
  if suspicious
  then temporarilyDisableAutoFill passwordField (showPasswordWarning p)
  else p.

Definition new_protection : Protection :=
  {| userWarned := false; warnings_shown := 0; autofill_disabled := [] |}.

(** ** Vocabulary of the further properties *)


(** Every double quote of the text comes right after a backslash; [prev]
    is the character before the text. *)
Fixpoint quotes_escaped (prev : option ascii) (l : list ascii) : bool :=
  match l with
  | [] => true
  | c :: l' =>
      (if Ascii.eqb c dquote
       then match prev with
            | Some p => Ascii.eqb p backslash
            | None => false
            end
       else true) && quotes_escaped (Some c) l'
  end.

(** The order of the verdicts: fail below unknown below pass. *)
Definition rank (o : option verdict) : Z :=
  match o with
  | Some VFail => -1
  | None => 0
  | Some VPass => 1
  end.


(** The key of the query cache for a payload. *)
Definition query_key (payload : Payload) : string :=
  fromText payload +:+ "||" +:+ subjectText payload +:+ "||" +:+
  snippetText payload.

(** A header map that uses none of the alternative spellings that
    [get_headers] accepts and [get_scores] does not. *)
Definition canonical_headers (headers : gmap string string) : Prop :=
  header headers "Authentication-results" = "" /\
  header headers "Authentication-Results:" = "" /\
  header headers "from" = "" /\
  header headers "return-path" = "" /\
  header headers "Return-Path:" = "".

(** What the listener may answer while the invariant holds: a trust of
    [0,100] in every answer that carries one. *)
Definition response_in_range (r : Response) : Prop :=
  match r with
  | RespHeaders result => trust_in_range result
  | RespScores scores => 0 <= resp_headerTrust scores <= 100
  | _ => True
  end.

(** The headers of the message of [spoofed_mail]. *)
Definition spoofed_headers : gmap string string :=
  {[ "Authentication-Results" := "mx.example; spf=fail dkim=fail dmarc=fail";
     "From" := "Bank <alerts@bank.example>" ]}.

(** A token, and the message [m-1] whose fetch fails. *)
Definition fetch_down : Collaborators :=
  {| getGmailToken := Returns "token";
     findMessageId := Returns (Some "m-1");
     fetchMessageMetadata := Throws "Error: Gmail API 500: ";
     ml_backend := fun _ => MlThrows |}.

(** A safe feedback about a sender. *)
Definition safe_feedback : Message :=
  {| msg_type := "feedback"; msg_payload := None; msg_label := "safe";
     msg_detail := Some "Alice <alice@example.com>" |}.

(** A relayed message with a diverging envelope and a neutral baseline. *)
Definition neutral_relayed_headers : gmap string string :=
  {[ "Authentication-Results" := "mx.example; spf=pass dkim=fail";
     "From" := "Bank <alerts@bank.example>";
     "Return-Path" := "<bounce@mailer.example>";
     "Delivered-To" := "me@example.org" ]}.

(** The focus listener over a run of focus events: the field and the
    value of [isSuspiciousPage()] at each. *)
Definition focus_run (events : list (string * bool)) (p : Protection)
    : Protection :=
  fold_left (fun p ev => on_focus (fst ev) (snd ev) p) events p.

(** How many of the four risk factors of a mail row besides the SPF
    failure are present. *)
Definition other_failures (d : EmailData) : Z :=
  points (String.eqb (ed_dkim d) "FAIL") 1 +
  points (String.eqb (ed_dmarc d) "FAIL") 1 +
  points (isSuspiciousSender (fromAddress d)) 1.

(** The recommendations of [analyzeDomain] for a tier. *)
Definition recommendations_for (t : tier) : list string :=
  match t with
  | high => ["🚨 HIGH RISK: Do not enter any credentials";
             "Verify the sender's identity through other means"]
  | medium => ["⚠️ Exercise caution with this link";
               "Check for misspellings in the domain name"]
  | low => ["✅ Appears safe, but remain vigilant"]
  end.


(** A mail row that fails SPF and DKIM, from a throwaway sender. *)
Definition failing_row : EmailData :=
  {| fromAddress := "prize@tempmail.com"; fromName := "Prize Team";
     ed_subject := "You won"; receivedDate := "Jan 1";
     ed_spf := "FAIL"; ed_dkim := "FAIL"; ed_dmarc := "PASS" |}.

(* ===================================================================== *)
(** * Part II: properties                                                 *)
(* ===================================================================== *)

(** ** Strings *)

Lemma app_cons (c : ascii) (s t : string) :
  String c s +:+ t = String c (s +:+ t).
Proof. reflexivity. Qed.

Lemma app_empty (t : string) : "" +:+ t = t.
Proof. reflexivity. Qed.

Lemma toLowerCase_app (a b : string) :
  toLowerCase (a +:+ b) = toLowerCase a +:+ toLowerCase b.
Proof.
  induction a as [|x a IH]; [reflexivity|].
  rewrite app_cons. cbn [toLowerCase]. now rewrite IH, app_cons.
Qed.

(** A split of the lower-cased string comes from a split of the string. *)
Lemma toLowerCase_split (s a b : string) :
  toLowerCase s = a +:+ b ->
  exists s1 s2, s = s1 +:+ s2 /\ toLowerCase s1 = a /\ toLowerCase s2 = b.
Proof.
  revert s. induction a as [|x a IH]; intros s H.
  - exists "", s. rewrite app_empty in H. auto.
  - destruct s as [|c s]; rewrite app_cons in H; cbn [toLowerCase] in H;
      [discriminate|].
    injection H as Hc Hs. destruct (IH _ Hs) as (s1 & s2 & -> & H1 & H2).
    exists (String c s1), s2. cbn [toLowerCase]. rewrite H1, Hc, app_cons. auto.
Qed.

Lemma startsWith_spec (p s : string) :
  startsWith p s = true <-> exists post, s = p +:+ post.
Proof.
  revert s. induction p as [|a p IH]; intros s; cbn [startsWith].
  - split; [intros _; now exists s | reflexivity].
  - destruct s as [|b s].
    + split; [discriminate | intros [post H]; discriminate].
    + rewrite andb_true_iff, IH. split.
      * intros [Hab [post ->]]. apply Ascii.eqb_eq in Hab as ->. now exists post.
      * intros [post H]. rewrite app_cons in H. injection H as -> ->. split.
        -- apply Ascii.eqb_refl.
        -- now exists post.
Qed.

Lemma includes_spec (s sub : string) :
  includes s sub = true <-> exists pre post, s = pre +:+ sub +:+ post.
Proof.
  induction s as [|c s IH].
  - cbn [includes]. rewrite orb_false_r, startsWith_spec. split.
    + intros [post H]. now exists "", post.
    + intros (pre & post & H). destruct pre; [now exists post | discriminate].
  - cbn [includes]. rewrite orb_true_iff, startsWith_spec, IH. split.
    + intros [[post H] | (pre & post & H)].
      * now exists "", post.
      * exists (String c pre), post. now rewrite app_cons, H.
    + intros (pre & post & H). destruct pre as [|x pre].
      * left. now exists post.
      * right. rewrite app_cons in H. injection H as _ H. now exists pre, post.
Qed.

(** [includes] on the lower-cased string is occurrence in any letter
    case. *)
Lemma includes_lower_occurs (tok s : string) :
  includes (toLowerCase s) tok = true <-> occurs_ci tok s.
Proof.
  rewrite includes_spec. split.
  - intros (pre & post & H).
    apply toLowerCase_split in H as (s1 & s23 & -> & _ & H).
    apply toLowerCase_split in H as (s2 & s3 & -> & H2 & _).
    now exists s1, s2, s3.
  - intros (pre & mid & post & -> & <-).
    exists (toLowerCase pre), (toLowerCase post).
    now rewrite !toLowerCase_app.
Qed.

(** ** [parseAuthResults] *)

Lemma occurs_ci_nonempty (tok s : string) :
  occurs_ci tok s -> tok <> "" -> truthy_str s = true.
Proof.
  intros (pre & mid & post & -> & <-) Hne.
  destruct pre; [|reflexivity]. destruct mid; [|reflexivity]. now elim Hne.
Qed.


Lemma protocol_verdict_fail (s proto : string) :
  ~ occurs_ci (proto +:+ "=pass") s ->
  occurs_ci (proto +:+ "=fail") s ->
  protocol_verdict (toLowerCase s) proto = Some VFail.
Proof.
  intros Hp Hf. unfold protocol_verdict.
  apply includes_lower_occurs in Hf. rewrite Hf.
  destruct (includes (toLowerCase s) (proto +:+ "=pass")) eqn:E; [|reflexivity].
  apply includes_lower_occurs in E. contradiction.
Qed.


Lemma parseAuthResults_fields (s : string) :
  let v := parseAuthResults (JStr s) in
  spf v = protocol_verdict (toLowerCase s) "spf" /\
  dkim v = protocol_verdict (toLowerCase s) "dkim" /\
  dmarc v = protocol_verdict (toLowerCase s) "dmarc".
Proof.
  destruct s as [|c s]; cbn -[protocol_verdict toLowerCase]; auto.
Qed.



(** ** The header trust *)

(** Baseline 50, plus or minus 40 for spf and dkim and 20 for dmarc,
    clamped. *)
Lemma headerTrustFromParsed_value (v : AuthVerdict) :
  headerTrustFromParsed (Some v) =
  clamp 0 100 (50 + delta (spf v) 40 + delta (dkim v) 40 + delta (dmarc v) 20).
Proof.
  unfold headerTrustFromParsed.
  destruct (spf v) as [[]|], (dkim v) as [[]|], (dmarc v) as [[]|]; reflexivity.
Qed.

Lemma headerTrustFromParsed_range (parsed : option AuthVerdict) :
  0 <= headerTrustFromParsed parsed <= 100.
Proof.
  destruct parsed as [v|]; [|cbn; lia].
  rewrite headerTrustFromParsed_value. unfold clamp. lia.
Qed.

Lemma boost_range (d : option string) (ledger : gmap string TrustRecord) :
  ledger_wf ledger -> 0 <= getTrustedSenderBoost d ledger <= 25.
Proof.
  intros Hwf. unfold getTrustedSenderBoost, TRUST_BOOST_FROM_HISTORY.
  destruct d as [d|]; [|lia].
  destruct (negb (truthy_str d)); [lia|].
  destruct (ledger !! d) as [r|] eqn:E; [|lia].
  specialize (Hwf d r E). lia.
Qed.

Lemma adjust_trust_range (trust : Z) (headers : gmap string string)
    (payload : Payload) (ledger : gmap string TrustRecord) :
  ledger_wf ledger -> 0 <= trust <= 100 ->
  0 <= fst (fst (adjust_trust trust headers payload ledger)) <= 100.
Proof.
  intros Hwf Ht. unfold adjust_trust. cbv zeta.
  match goal with
  | |- context [getTrustedSenderBoost ?d ledger] =>
      pose proof (boost_range d ledger Hwf) as Hb;
      generalize dependent (getTrustedSenderBoost d ledger)
  end.
  intros boost Hb.
  destruct (domains_differ _ _), (detectGoogleRelay headers), (boost =? 0);
    cbn [fst]; lia.
Qed.

Lemma scores_header_trust_range (headers : gmap string string)
    (payload : Payload) (ledger : gmap string TrustRecord) :
  ledger_wf ledger ->
  0 <= snd (scores_header_trust headers payload ledger) <= 100.
Proof.
  intros Hwf. unfold scores_header_trust. cbv zeta.
  match goal with
  | |- context [getTrustedSenderBoost ?d ledger] =>
      pose proof (boost_range d ledger Hwf) as Hb;
      generalize dependent (getTrustedSenderBoost d ledger)
  end.
  intros boost Hb.
  match goal with
  | |- context [headerTrustFromParsed ?p] =>
      pose proof (headerTrustFromParsed_range p) as Hp;
      generalize dependent (headerTrustFromParsed p)
  end.
  intros base Hp.
  destruct (domains_differ _ _), (detectGoogleRelay headers), (boost =? 0);
    cbn [snd]; lia.
Qed.

Lemma header_result_range (msgId : string) (headers : gmap string string)
    (payload : Payload) (ledger : gmap string TrustRecord) :
  ledger_wf ledger ->
  0 <= trustBoost (header_result msgId headers payload ledger) <= 100.
Proof.
  intros Hwf. unfold header_result. cbv zeta.
  match goal with
  | |- context [adjust_trust ?t headers payload ledger] =>
      pose proof (adjust_trust_range t headers payload ledger Hwf
                    (headerTrustFromParsed_range _)) as H;
      destruct (adjust_trust t headers payload ledger) as [[t' m] g]
  end.
  exact H.
Qed.

(** C2.  Whatever the three verdicts, the addresses, the header map and
    the ledger (with no negative count), the trust that [get_headers]
    computes lies in [0,100]: the baseline with the protocol deltas is
    clamped, and the mismatch penalty, the relay bonus and the ledger boost
    each keep it in range. *)
Theorem header_trust_in_range (v : AuthVerdict) (msgId : string)
    (headers : gmap string string) (payload : Payload)
    (ledger : gmap string TrustRecord) :
  ledger_wf ledger ->
  0 <= headerTrustFromParsed (Some v) <= 100 /\
  0 <= fst (fst (adjust_trust (headerTrustFromParsed (Some v))
                              headers payload ledger)) <= 100 /\
  0 <= trustBoost (header_result msgId headers payload ledger) <= 100.
Proof.
  intros Hwf. split; [apply headerTrustFromParsed_range|]. split.
  - apply adjust_trust_range; [assumption | apply headerTrustFromParsed_range].
  - now apply header_result_range.
Qed.

(** ** The trusted-sender ledger *)

Lemma ledger_wf_empty : ledger_wf ∅.
Proof. intros d r H. rewrite lookup_empty in H. discriminate. Qed.

Lemma add_lookup_same (d : string) (now : Z) (ledger : gmap string TrustRecord) :
  d <> "" ->
  addTrustedSenderDomain (Some d) now ledger !! d =
  Some {| count := match ledger !! d with Some r => count r | None => 0 end + 1;
          last := now |}.
Proof.
  intros Hd. unfold addTrustedSenderDomain.
  destruct d as [|c d]; [congruence|]. cbn [truthy_str negb].
  rewrite lookup_insert_eq.
  destruct (ledger !! String c d) as [r|]; unfold default, from_option, id;
    cbn [count]; [|reflexivity].
  destruct (count r =? 0) eqn:E; [|reflexivity].
  apply Z.eqb_eq in E. now rewrite E.
Qed.

Lemma add_lookup_other (e : option string) (d : string) (now : Z)
    (ledger : gmap string TrustRecord) :
  e <> Some d ->
  addTrustedSenderDomain e now ledger !! d = ledger !! d.
Proof.
  intros Hne. unfold addTrustedSenderDomain.
  destruct e as [e|]; [|reflexivity].
  destruct (negb (truthy_str e)); [reflexivity|].
  apply lookup_insert_ne. congruence.
Qed.

Lemma add_preserves_wf (e : option string) (now : Z)
    (ledger : gmap string TrustRecord) :
  ledger_wf ledger -> ledger_wf (addTrustedSenderDomain e now ledger).
Proof.
  intros Hwf d r H.
  destruct (decide (e = Some d)) as [->|Hne].
  - destruct (decide (d = "")) as [->|Hd].
    + cbn in H. eauto.
    + rewrite add_lookup_same in H by assumption. injection H as <-.
      cbn [count]. destruct (ledger !! d) as [r0|] eqn:E; [|lia].
      specialize (Hwf d r0 E). lia.
  - rewrite add_lookup_other in H by assumption. eauto.
Qed.

Lemma record_all_cons (ev : option string * Z)
    (events : list (option string * Z)) (ledger : gmap string TrustRecord) :
  record_all (ev :: events) ledger =
  record_all events (addTrustedSenderDomain (fst ev) (snd ev) ledger).
Proof. reflexivity. Qed.

Lemma record_all_wf (events : list (option string * Z))
    (ledger : gmap string TrustRecord) :
  ledger_wf ledger -> ledger_wf (record_all events ledger).
Proof.
  revert ledger. induction events as [|ev events IH]; intros ledger Hwf.
  - assumption.
  - rewrite record_all_cons. apply IH, add_preserves_wf, Hwf.
Qed.

(** One more confirmation, for any domain, never lowers a boost. *)
Lemma boost_step (d : option string) (e : option string) (now : Z)
    (ledger : gmap string TrustRecord) :
  getTrustedSenderBoost d ledger <=
  getTrustedSenderBoost d (addTrustedSenderDomain e now ledger).
Proof.
  destruct d as [d|]; [|reflexivity].
  destruct (decide (d = "")) as [->|Hd]; [reflexivity|].
  unfold getTrustedSenderBoost.
  destruct (negb (truthy_str d)); [reflexivity|].
  destruct (decide (e = Some d)) as [->|Hne].
  - rewrite add_lookup_same by assumption.
    unfold TRUST_BOOST_FROM_HISTORY. cbn [count].
    destruct (ledger !! d) as [r|]; lia.
  - rewrite add_lookup_other by assumption. reflexivity.
Qed.







(** ** The timed caches *)

Section CacheProperties.
Context {A : Type}.
Implicit Types (m : gmap string (CacheEntry A)) (k : string) (v : A).

Lemma cacheGet_after_set m k v (ttl t0 t1 : Z) :
  cacheGet (cacheSet m k v ttl t0) k t1 =
  if t1 - t0 >? effective_ttl ttl
  then (None, delete k (cacheSet m k v ttl t0))
  else (Some v, cacheSet m k v ttl t0).
Proof.
  unfold cacheGet, cacheSet. rewrite lookup_insert_eq. reflexivity.
Qed.

(** Within the effective TTL, bound included, the value is served and
    the cache is left as it is. *)
Lemma cacheGet_live m k v (ttl t0 t1 : Z) :
  t1 - t0 <= effective_ttl ttl ->
  cacheGet (cacheSet m k v ttl t0) k t1 = (Some v, cacheSet m k v ttl t0).
Proof.
  intros H. rewrite cacheGet_after_set.
  destruct (t1 - t0 >? effective_ttl ttl) eqn:E; [lia | reflexivity].
Qed.




(** A lookup of a missing key gives [null] and changes nothing. *)
Lemma cacheGet_missing m k (t : Z) :
  m !! k = None -> cacheGet m k t = (None, m).
Proof. intros H. unfold cacheGet. now rewrite H. Qed.

End CacheProperties.




(** ** Rounding *)

Lemma Qfloor_unique (x : Q) (n : Z) :
  (inject_Z n <= x)%Q -> (x < inject_Z (n + 1))%Q -> Qfloor x = n.
Proof.
  intros H1 H2.
  pose proof (Qfloor_le x) as F1. pose proof (Qlt_floor x) as F2.
  assert (A : (inject_Z n < inject_Z (Qfloor x + 1))%Q)
    by (eapply Qle_lt_trans; eauto).
  assert (B : (inject_Z (Qfloor x) < inject_Z (n + 1))%Q)
    by (eapply Qle_lt_trans; eauto).
  rewrite <- Zlt_Qlt in A, B. lia.
Qed.

Lemma Qfloor_lt_bound (x : Q) (n : Z) : (x < inject_Z n)%Q -> Qfloor x < n.
Proof.
  intros H. rewrite Zlt_Qlt. eapply Qle_lt_trans; [apply Qfloor_le | exact H].
Qed.

(** Rounding commutes with adding an integer. *)
Lemma round_half_up_shift (z : Z) (q : Q) :
  round_half_up (inject_Z z + q) = z + round_half_up q.
Proof.
  unfold round_half_up. apply Qfloor_unique.
  - pose proof (Qfloor_le (q + (1 # 2))) as F1. rewrite inject_Z_plus.
    revert F1. generalize (inject_Z (Qfloor (q + (1 # 2)))), (inject_Z z).
    intros a b F1. lra.
  - pose proof (Qlt_floor (q + (1 # 2))) as F2.
    replace (z + Qfloor (q + (1 # 2)) + 1)
      with (z + (Qfloor (q + (1 # 2)) + 1)) by lia.
    rewrite inject_Z_plus.
    revert F2. generalize (inject_Z (Qfloor (q + (1 # 2)) + 1)), (inject_Z z).
    intros a b F2. lra.
Qed.

Lemma round_half_up_le (x y : Q) :
  (x <= y)%Q -> round_half_up x <= round_half_up y.
Proof. intros H. apply Qfloor_resp_le. lra. Qed.

Lemma round_half_up_eq (x y : Q) :
  (x == y)%Q -> round_half_up x = round_half_up y.
Proof. intros H. unfold round_half_up. now rewrite H. Qed.

(** [Math.round(4 * Math.random())] is one of 0, 1, 2, 3, 4. *)
Lemma jitter_range (r : Q) :
  (0 <= r)%Q -> (r < 1)%Q -> 0 <= round_half_up (r * 4) <= 4.
Proof.
  intros H0 H1. unfold round_half_up. split.
  - change 0 with (Qfloor (inject_Z 0)). apply Qfloor_resp_le.
    change (inject_Z 0) with 0%Q. lra.
  - assert (Qfloor (r * 4 + (1 # 2)) < 5); [|lia].
    apply Qfloor_lt_bound. change (inject_Z 5) with 5%Q. lra.
Qed.

Lemma Qle_bool_inject (a b : Z) : Qle_bool (inject_Z a) (inject_Z b) = (a <=? b).
Proof. unfold Qle_bool. cbn. now rewrite !Z.mul_1_r. Qed.

Lemma Math_min_Z (a b : Z) :
  Math_min (num_of_Z a) (num_of_Z b) = num_of_Z (Z.min a b).
Proof.
  unfold Math_min, num_of_Z, nleb. rewrite Qle_bool_inject.
  destruct (a <=? b) eqn:E; do 2 f_equal; lia.
Qed.

Lemma Math_max_Z (a b : Z) :
  Math_max (num_of_Z a) (num_of_Z b) = num_of_Z (Z.max a b).
Proof.
  unfold Math_max, num_of_Z, nleb. rewrite Qle_bool_inject.
  destruct (a <=? b) eqn:E; do 2 f_equal; lia.
Qed.

(** ** The ensemble *)

(** On finite scores the ensemble rounds the weighted sum, with the trust
    read through [headerTrust || 50], and clamps it. *)
Lemma ensemble_finite (l m : Q) (t : Z) :
  ensemble (Fin l) (JNum (Fin m)) t = (Fin m, num_of_Z (final_of l m t)).
Proof.
  unfold ensemble, final_of, MAX_SCORE, clamp, weighted_sum. cbv zeta.
  change (or_num (w_local WEIGHTS) (num_of_Z 0)) with (Fin (25 # 100)).
  change (or_num (w_ml WEIGHTS) (num_of_Z 0)) with (Fin (50 # 100)).
  change (or_num (w_header WEIGHTS) (num_of_Z 0)) with (Fin (20 # 100)).
  unfold nsub. unfold num_of_Z at 3 4.
  cbn [nneg nadd nmul Math_round].
  now rewrite Math_min_Z, Math_max_Z.
Qed.

(** A score that is not of type number is replaced by the local score. *)
Lemma ensemble_substitutes_local (localScore : number) (ml_score : jsval)
    (t : Z) :
  (forall n, ml_score <> JNum n) ->
  ensemble localScore ml_score t = ensemble localScore (JNum localScore) t.
Proof.
  intros H. destruct ml_score; try reflexivity. now elim (H n).
Qed.

Lemma weighted_sum_spec (l m : Q) (t : Z) :
  (weighted_sum l m t ==
   (25 # 100) * l + (50 # 100) * m + (20 # 100) * inject_Z (100 - t))%Q.
Proof.
  unfold weighted_sum, Z.sub. rewrite inject_Z_plus, inject_Z_opp. ring.
Qed.

(** For a trust other than 0 the ensemble is the formula of the
    specification. *)
Lemma ensemble_formula (l m : Q) (t : Z) :
  t <> 0 ->
  snd (ensemble (Fin l) (JNum (Fin m)) t) = num_of_Z (ensemble_spec l m t).
Proof.
  intros Ht. rewrite ensemble_finite. cbn [snd]. unfold ensemble_spec, final_of.
  do 2 f_equal. unfold or_Z. destruct (t =? 0) eqn:E; [lia|].
  apply round_half_up_eq, weighted_sum_spec.
Qed.

Lemma clamp_le (lo hi x y : Z) : x <= y -> clamp lo hi x <= clamp lo hi y.
Proof. unfold clamp. lia. Qed.

Lemma final_of_monotone (l l' m m' : Q) (t t' : Z) :
  (l <= l')%Q -> (m <= m')%Q -> t <> 0 -> t <= t' ->
  final_of l m t' <= final_of l' m' t.
Proof.
  intros Hl Hm Ht Htt. unfold final_of, or_Z.
  destruct (t =? 0) eqn:E; [lia|].
  destruct (t' =? 0) eqn:E'.
  - (* a trust of 0 is read as 50 *)
    apply Z.eqb_eq in E'. subst t'.
    apply clamp_le, round_half_up_le. unfold weighted_sum.
    assert (H : (inject_Z t <= inject_Z 0)%Q) by (rewrite <- Zle_Qle; lia).
    revert H. change (inject_Z 0) with 0%Q. change (inject_Z 100) with 100%Q.
    change (inject_Z 50) with 50%Q.
    generalize (inject_Z t). intros q H. lra.
  - apply clamp_le, round_half_up_le. unfold weighted_sum.
    assert (H : (inject_Z t <= inject_Z t')%Q) by (rewrite <- Zle_Qle; lia).
    revert H. change (inject_Z 100) with 100%Q.
    generalize (inject_Z t), (inject_Z t'). intros q q' H. lra.
Qed.



(** Whatever the score that is not NaN, the final score is an integer of
    [0,100]. *)
Lemma ensemble_range (l : Q) (ml_score : jsval) (t : Z) :
  ml_score <> JNum NaN ->
  exists z, snd (ensemble (Fin l) ml_score t) = num_of_Z z /\ 0 <= z <= 100.
Proof.
  intros Hnan.
  assert (Hfin : forall m, exists z,
             snd (ensemble (Fin l) (JNum (Fin m)) t) = num_of_Z z /\
             0 <= z <= 100).
  { intros m. rewrite ensemble_finite. cbn [snd].
    eexists; split; [reflexivity | unfold final_of, clamp; lia]. }
  destruct ml_score as [| |b|[m| |[]]|s|]; try apply (Hfin l).
  - apply Hfin.
  - congruence.
  - exists 0. split; [reflexivity | lia].
  - exists 100. split; [reflexivity | lia].
Qed.

(** C1.  A message that fails spf, dkim and dmarc has a header trust of 0;
    [get_scores] reads that 0 as the neutral 50 and returns 25 for a local
    score and an ML score of 20, where the formula with the suspicion
    [100 - trust] gives 35. *)
Theorem get_scores_zero_trust_read_as_neutral :
  resp_headerTrust (fst (get_scores spoofed_mail request_20 0 empty_state)) = 0 /\
  final_score (fst (get_scores spoofed_mail request_20 0 empty_state)) =
    num_of_Z 25 /\
  ensemble_spec 20 20 0 = 35.
Proof. vm_compute. repeat split. Qed.

(** C3.  With a local score and an ML score of 20, the final score is 25
    at trust 0 and 33 at trust 10: raising the trust from 0 raises the
    final score. *)
Theorem ensemble_rises_from_zero_trust :
  snd (ensemble (num_of_Z 20) (JNum (num_of_Z 20)) 0) = num_of_Z 25 /\
  snd (ensemble (num_of_Z 20) (JNum (num_of_Z 20)) 10) = num_of_Z 33.
Proof. vm_compute. split; reflexivity. Qed.

(** ** [get_scores] under failures *)

Lemma ml_fails_not_number (reply : ml_reply) :
  ml_fails reply -> forall n, read_ml_score reply <> JNum n.
Proof.
  intros H n. destruct H as [|a b Ha Hb|a b Hab]; cbn [read_ml_score].
  - discriminate.
  - unfold js_or. rewrite Ha, Hb. cbn. discriminate.
  - destruct Hab as [Hab|Hab]; rewrite Hab; cbn; discriminate.
Qed.

Lemma fetch_header_trust_neutral (c : Collaborators) (payload : Payload)
    (now : Z) (st : State) :
  header_fetch_fails c st now ->
  fst (fetch_header_trust c payload now st) = 50.
Proof.
  intros H. unfold fetch_header_trust. cbv zeta.
  destruct H as [err H|err H|H|id err H1 H2 H3].
  - rewrite H. reflexivity.
  - rewrite H. now destruct (truthy_opt _).
  - rewrite H. now destruct (truthy_opt _).
  - rewrite H1, H3. destruct (truthy_opt _); [|reflexivity].
    destruct (truthy_str id); [|reflexivity].
    destruct (cacheGet (HEADER_CACHE st) id now) as [cached hc].
    cbn [fst] in H2. now rewrite H2.
Qed.

(** When the ML signal and the header signal are both missing in one of
    the ways above, the handler still answers: the ML score is the local
    score, the header trust is 50 and the final score is the formula on
    them, in [0,100]. *)
Lemma get_scores_degrades (c : Collaborators) (payload : Payload) (now : Z)
    (st : State) (l : Q) :
  localScore payload = Some (Fin l) ->
  (forall text, ml_fails (ml_backend c text)) ->
  header_fetch_fails c st now ->
  let r := fst (get_scores c payload now st) in
  ok r = true /\ resp_ml_score r = Fin l /\ resp_headerTrust r = 50 /\
  final_score r = num_of_Z (ensemble_spec l l 50) /\
  0 <= ensemble_spec l l 50 <= 100.
Proof.
  intros Hl Hml Hh. unfold get_scores. cbv zeta. rewrite Hl.
  pose proof (fetch_header_trust_neutral c payload now st Hh) as Ht.
  destruct (fetch_header_trust c payload now st) as [t hc]. cbn [fst] in Ht.
  subst t.
  match goal with
  | |- context [read_ml_score (ml_backend c ?text)] =>
      pose proof (ml_fails_not_number _ (Hml text)) as Hn;
      rewrite (ensemble_substitutes_local (Fin l) _ 50 Hn)
  end.
  pose proof (ensemble_formula l l 50 ltac:(lia)) as Hf.
  rewrite ensemble_finite in *. cbn [fst snd] in *.
  repeat split; try assumption; unfold ensemble_spec, clamp; lia.
Qed.

(** C4.  With no token and an ML backend whose score is the string [n/a],
    [get_scores] answers [ok] with the header trust 50, but the ML score
    and the final score are both NaN: [parseFloat] turns the string into
    NaN, which passes the [typeof] test at the ensemble. *)
Theorem get_scores_nan_score :
  ok (fst (get_scores broken_backend request_20 0 empty_state)) = true /\
  resp_headerTrust (fst (get_scores broken_backend request_20 0 empty_state)) = 50 /\
  resp_ml_score (fst (get_scores broken_backend request_20 0 empty_state)) = NaN /\
  final_score (fst (get_scores broken_backend request_20 0 empty_state)) = NaN.
Proof. vm_compute. repeat split. Qed.


(** ** The risk tier and the click gate *)

Lemma risk_tier_thresholds (s : Z) :
  (risk_tier s = high <-> s > 70) /\
  (risk_tier s = medium <-> 40 < s <= 70) /\
  (risk_tier s = low <-> s <= 40).
Proof.
  unfold risk_tier.
  destruct (s >? 70) eqn:E1; destruct (s >? 40) eqn:E2;
    repeat split; intros; try discriminate; try reflexivity; lia.
Qed.

Lemma gate_intercepts (p : bool) (s : Z) :
  gate p s = Intercepted <-> p = true \/ s > 60.
Proof.
  unfold gate. destruct p; cbn [orb].
  - split; auto.
  - destruct (s >? 60) eqn:E; split; intros H;
      first [ reflexivity | discriminate | right; lia
            | destruct H; [discriminate | lia] ].
Qed.

(** C5 (as amended).  The tier of a score is high above 70, medium above
    40 and up to 70, low up to 40.  The click gate intercepts a link when
    the pattern flag is true or the score is above 60, and lets it through
    otherwise: a score above 70 is intercepted, a score up to 40 without
    the flag is let through, and a true flag is never let through. *)
Theorem gate_policy (s : Z) (p : bool) :
  (risk_tier s = high <-> s > 70) /\
  (risk_tier s = medium <-> 40 < s <= 70) /\
  (risk_tier s = low <-> s <= 40) /\
  (gate p s = Intercepted <-> p = true \/ s > 60) /\
  (gate p s = Allowed <-> p = false /\ s <= 60) /\
  (s > 70 -> gate p s = Intercepted) /\
  (s <= 40 -> p = false -> gate p s = Allowed) /\
  (p = true -> gate p s = Intercepted).
Proof.
  destruct (risk_tier_thresholds s) as (H1 & H2 & H3).
  pose proof (gate_intercepts p s) as Hg.
  assert (Ha : gate p s = Allowed <-> p = false /\ s <= 60).
  { unfold gate. destruct p; cbn [orb].
    - split; [discriminate | intros [? _]; discriminate].
    - destruct (s >? 60) eqn:E; split; intros H;
        first [ reflexivity | discriminate | split; [reflexivity | lia]
              | destruct H; lia ]. }
  split; [exact H1|]. split; [exact H2|]. split; [exact H3|].
  split; [exact Hg|]. split; [exact Ha|].
  split; [intros H; apply Hg; right; lia|].
  split; [intros H Hp; apply Ha; split; [assumption | lia]|].
  intros Hp. apply Hg. now left.
Qed.

(** A score of 50 without the pattern flag: the policy says warn, the click
    handler lets the link through. *)
Lemma gate_allows_warn_tier :
  gate_spec 50 false = warn /\ gate false 50 <> action_of (gate_spec 50 false).
Proof. split; [reflexivity | discriminate]. Qed.

(** ** [estimateLinkRisk] *)

Lemma add_each_count {A : Type} (w : Z) (hit : A -> bool) (l : list A)
    (score : Z) :
  add_each w hit l score = score + w * count_hits hit l.
Proof.
  unfold add_each, count_hits. revert score.
  induction l as [|x l IH]; intros score; cbn [fold_left List.filter].
  - cbn. lia.
  - rewrite IH. destruct (hit x); cbn [List.length]; lia.
Qed.

Lemma if_points (c : bool) (score w : Z) :
  (if c then score + w else score) = score + points c w.
Proof. destruct c; unfold points; lia. Qed.

Lemma count_hits_range {A : Type} (hit : A -> bool) (l : list A) :
  0 <= count_hits hit l <= Z.of_nat (List.length l).
Proof.
  unfold count_hits. split; [lia|].
  apply inj_le. induction l as [|x l IH]; cbn [List.filter List.length]; [lia|].
  destruct (hit x); cbn [List.length]; lia.
Qed.

Lemma points_range (c : bool) (w : Z) : 0 <= w -> 0 <= points c w <= w.
Proof. destruct c; unfold points; lia. Qed.

(** Replace every [points c w] of the goal by a variable between 0 and
    [w]. *)
Ltac bound_points :=
  repeat match goal with
         | |- context [points ?c ?w] =>
             pose proof (points_range c w ltac:(lia));
             generalize dependent (points c w); intros
         end.




(** ** [computeLocalScore] *)

Lemma or_str_empty_r (a : string) : or_str a "" = a.
Proof. now destruct a. Qed.

Lemma score_url_contribution (score : Z) (u : string) :
  score_url score u = score + url_contribution u.
Proof.
  unfold score_url, url_contribution. cbv zeta.
  rewrite !if_points, add_each_count. lia.
Qed.

Lemma fold_score_url (urls : list string) (score : Z) :
  fold_left score_url urls score = score + sum_over url_contribution urls.
Proof.
  revert score. induction urls as [|u urls IH]; intros score.
  - cbn. lia.
  - cbn [fold_left sum_over fold_right]. rewrite IH, score_url_contribution.
    fold (sum_over url_contribution urls). lia.
Qed.

Lemma sender_branch (fromText : string) (score : Z) :
  (if truthy_str fromText then
     let emailLike := option_map (matched fromText) (exec true re_email fromText) in
     let score := if negb (truthy_opt emailLike) then score + 6 else score in
     let score :=
       if (String.length (remove_chars is_space fromText) <=? 2)%nat
       then score + 12 else score in
     score
   else score) = score + sender_contribution fromText.
Proof.
  unfold sender_contribution, sender_checks. cbv zeta.
  destruct (truthy_str fromText); [|lia].
  rewrite !if_points. lia.
Qed.

Lemma exclam_branch (n : nat) (score : Z) :
  (if Z.of_nat n >? 0 then score + Z.min 12 (Z.of_nat n * 4) else score) =
  score + Z.min 12 (4 * Z.of_nat n).
Proof. destruct (Z.of_nat n >? 0) eqn:E; lia. Qed.

(** The accumulated score is the sum of the contributions. *)
Lemma computeLocalScore_sum (fromText subjectText snippetText rowText : string)
    (rnd : Q) :
  computeLocalScore fromText subjectText snippetText rowText rnd =
  Z.min 100 (lexical_sum sender_contribution fromText subjectText snippetText
                         rowText + jitter rnd).
Proof.
  unfold computeLocalScore, lexical_sum, jitter. cbv zeta.
  rewrite !or_str_empty_r.
  rewrite sender_branch, exclam_branch.
  fold (uppercase_share (trim subjectText)).
  rewrite !if_points, !add_each_count, fold_score_url.
  rewrite round_half_up_shift. f_equal; lia.
Qed.








(** ** The invariant of the handlers *)

Lemma cacheGet_in_range (m : gmap string (CacheEntry HeaderResult))
    (k : string) (now : Z) :
  cache_in_range m ->
  cache_in_range (snd (cacheGet m k now)) /\
  forall r, fst (cacheGet m k now) = Some r -> trust_in_range r.
Proof.
  intros Hm. unfold cacheGet.
  destruct (m !! k) as [e|] eqn:E; cbn [fst snd].
  - destruct (now - ts e >? effective_ttl (ttl e)); cbn [fst snd].
    + split; [now apply map_Forall_delete | discriminate].
    + split; [assumption|]. intros r [= <-].
      apply (map_Forall_lookup_1 _ m k e Hm E).
  - split; [assumption | discriminate].
Qed.

Lemma cacheSet_in_range (m : gmap string (CacheEntry HeaderResult))
    (k : string) (r : HeaderResult) (ttl now : Z) :
  trust_in_range r -> cache_in_range m ->
  cache_in_range (cacheSet m k r ttl now).
Proof. intros Hr Hm. unfold cacheSet. now apply map_Forall_insert_2. Qed.

Lemma state_ok_empty : state_ok empty_state.
Proof.
  split; [apply map_Forall_empty|].
  split; [apply map_Forall_empty | apply ledger_wf_empty].
Qed.

Lemma state_ok_with_query (st : State) qc :
  state_ok st -> cache_in_range qc -> state_ok (with_query_cache st qc).
Proof. intros (Hh & Hq & Hl) H. split; [exact Hh|]. split; [exact H | exact Hl]. Qed.

Lemma state_ok_with_header (st : State) hc :
  state_ok st -> cache_in_range hc -> state_ok (with_header_cache st hc).
Proof. intros (Hh & Hq & Hl) H. split; [exact H|]. split; [exact Hq | exact Hl]. Qed.

Ltac keep_state :=
  repeat first
    [ match goal with H : ?G |- ?G => exact H end
    | apply state_ok_with_query
    | apply state_ok_with_header
    | apply cacheSet_in_range ].

(** [get_headers] keeps the invariant, and the trust of an [ok] response is
    in range, whether it is computed or served from a cache. *)
Lemma get_headers_invariant (c : Collaborators) (payload : Payload) (now : Z)
    (st : State) :
  state_ok st ->
  state_ok (snd (get_headers c payload now st)) /\
  forall r, fst (get_headers c payload now st) = HeadersOk r -> trust_in_range r.
Proof.
  intros Hst. pose proof Hst as (Hh & Hq & Hl). unfold get_headers. cbv zeta.
  match goal with
  | |- context [cacheGet (QUERY_CACHE st) ?k now] =>
      destruct (cacheGet_in_range (QUERY_CACHE st) k now Hq) as [Hq' Hr];
      destruct (cacheGet (QUERY_CACHE st) k now) as [cached qc]
  end.
  cbn [fst snd] in Hq', Hr.
  destruct cached as [r|].
  { cbn [fst snd]. split; [keep_state|]. intros r' [= <-]. now apply Hr. }
  destruct (negb (truthy_opt _)).
  { cbn [fst snd]. split; [keep_state | discriminate]. }
  destruct (findMessageId c) as [[msgId|]|err];
    [ | cbn [fst snd]; split; [keep_state | discriminate]
      | cbn [fst snd]; split; [keep_state | discriminate] ].
  destruct (negb (truthy_str msgId)).
  { cbn [fst snd]. split; [keep_state | discriminate]. }
  change (HEADER_CACHE (with_query_cache st qc)) with (HEADER_CACHE st).
  destruct (cacheGet_in_range (HEADER_CACHE st) msgId now Hh) as [Hh' Hr'].
  destruct (cacheGet (HEADER_CACHE st) msgId now) as [headerCached hc].
  cbn [fst snd] in Hh', Hr'.
  destruct headerCached as [r|].
  { cbn [fst snd]. split.
    - keep_state; now apply Hr'.
    - intros r' [= <-]. now apply Hr'. }
  destruct (fetchMessageMetadata c) as [hdrs|err].
  - pose proof (header_result_range msgId hdrs payload _ Hl) as Hres.
    cbn [fst snd]. split.
    + keep_state; exact Hres.
    + intros r' [= <-]. exact Hres.
  - cbn [fst snd]. split; [keep_state | discriminate].
Qed.

Lemma fetch_header_trust_range (c : Collaborators) (payload : Payload)
    (now : Z) (st : State) :
  state_ok st ->
  0 <= fst (fetch_header_trust c payload now st) <= 100 /\
  cache_in_range (snd (fetch_header_trust c payload now st)).
Proof.
  intros (Hh & Hq & Hl). unfold fetch_header_trust. cbv zeta.
  destruct (truthy_opt _); [|cbn [fst snd]; split; [lia | exact Hh]].
  destruct (findMessageId c) as [[id|]|err];
    [ | cbn [fst snd]; split; [lia | exact Hh]
      | cbn [fst snd]; split; [lia | exact Hh] ].
  destruct (truthy_str id); [|cbn [fst snd]; split; [lia | exact Hh]].
  destruct (cacheGet_in_range (HEADER_CACHE st) id now Hh) as [Hh' Hr].
  destruct (cacheGet (HEADER_CACHE st) id now) as [cached hc].
  cbn [fst snd] in Hh', Hr.
  destruct cached as [r|].
  - cbn [fst snd]. split; [|assumption].
    specialize (Hr r eq_refl). unfold trust_in_range in Hr.
    unfold or_Z. destruct (trustBoost r =? 0); lia.
  - destruct (fetchMessageMetadata c) as [hdrs|err];
      [|cbn [fst snd]; split; [lia | assumption]].
    pose proof (scores_header_trust_range hdrs payload _ Hl) as Ht.
    destruct (scores_header_trust hdrs payload (trustedSenders st)) as [pv t].
    cbn [fst snd] in *. split; [assumption|].
    now apply cacheSet_in_range.
Qed.

(** [get_scores] keeps the invariant and reports a header trust of
    [0,100]. *)
Lemma get_scores_invariant (c : Collaborators) (payload : Payload) (now : Z)
    (st : State) :
  state_ok st ->
  state_ok (snd (get_scores c payload now st)) /\
  0 <= resp_headerTrust (fst (get_scores c payload now st)) <= 100.
Proof.
  intros Hst. unfold get_scores. cbv zeta.
  destruct (fetch_header_trust_range c payload now st Hst) as [Ht Hc].
  destruct (fetch_header_trust c payload now st) as [t hc].
  cbn [fst snd] in Ht, Hc.
  destruct (ensemble _ _ t) as [mlVal finalScore].
  cbn [fst snd resp_headerTrust]. split; [keep_state | assumption].
Qed.

(** ** Instances *)


Lemma header_trust_in_range_witness :
  ledger_wf ledger_two /\
  0 <= trustBoost (header_result "m-1" relayed_headers request_20 ledger_two)
    <= 100.
Proof.
  assert (Hwf : ledger_wf ledger_two) by apply record_all_wf, ledger_wf_empty.
  split; [exact Hwf|].
  apply (header_trust_in_range
           {| spf := Some VFail; dkim := Some VFail; dmarc := Some VFail; raw := "" |}
           "m-1" relayed_headers request_20 ledger_two Hwf).
Defined.



(** With nothing answering, a local score of 20 gives
    round(5 + 10 + 10) = 25. *)
Example offline_degrades :
  final_score (fst (get_scores offline request_20 0 empty_state)) = num_of_Z 25 /\
  resp_ml_score (fst (get_scores offline request_20 0 empty_state)) = num_of_Z 20 /\
  resp_headerTrust (fst (get_scores offline request_20 0 empty_state)) = 50.
Proof.
  destruct (get_scores_degrades offline request_20 0 empty_state 20 eq_refl
              (fun _ => ml_unreachable)
              (no_token offline empty_state 0 _ eq_refl))
    as (_ & Hm & Ht & Hf & _).
  rewrite Hf, Hm, Ht. repeat split.
Qed.

(** An ML score of 0 is falsy: [json.ml_score || json.score || null] is
    [null] and the local score of 80 takes its place, for a final score of
    round(20 + 40 + 10) = 70 where the formula on an ML score of 0 gives
    30. *)
Example ml_score_zero_read_as_missing :
  read_ml_score (MlJson (JNum (num_of_Z 0)) JUndefined) = JNull /\
  resp_ml_score (fst (get_scores zero_score_backend request_80 0 empty_state)) =
    num_of_Z 80 /\
  final_score (fst (get_scores zero_score_backend request_80 0 empty_state)) =
    num_of_Z 70 /\
  ensemble_spec 80 0 50 = 30.
Proof. vm_compute. repeat split. Qed.

(** Raising a non-zero trust never raises the final score: 35 at trust 1,
    33 at trust 10. *)
Example final_of_falls_with_trust :
  final_of 20 20 10 <= final_of 20 20 1 /\
  final_of 20 20 1 = 35 /\ final_of 20 20 10 = 33.
Proof.
  split; [|split; reflexivity].
  apply final_of_monotone; [apply Qle_refl | apply Qle_refl | lia | lia].
Qed.

(** The scenarios of the specification. *)

Example parse_mixed :
  parseAuthResults (JStr "spf=pass dkim=fail") =
  {| spf := Some VPass; dkim := Some VFail; dmarc := None;
     raw := "spf=pass dkim=fail" |}.
Proof. reflexivity. Qed.

Example parse_not_a_string :
  parseAuthResults JNull = {| spf := None; dkim := None; dmarc := None; raw := "" |}.
Proof. reflexivity. Qed.

Example benign_mail_scores_low :
  computeLocalScore "Alice <alice@example.com>" "Meeting notes" "see attached" ""
                    0 = 0 /\
  gate false 0 = Allowed.
Proof. vm_compute. split; reflexivity. Qed.

Example urgent_mail_scores_high :
  computeLocalScore "" "URGENT: Verify your account immediately"
                    "http://192.168.1.5/login" "" 0 = 100 /\
  estimateLinkRisk "http://192.168.1.5/login" = 100 /\
  click_handler "http://192.168.1.5/login" 0 = Intercepted.
Proof. vm_compute. repeat split. Qed.

Example all_fail_and_mismatch :
  trustBoost
    (header_result "m-1"
       {[ "Authentication-Results" := "spf=fail dkim=fail dmarc=fail";
          "From" := "Bank <alerts@bank.example>";
          "Return-Path" := "<bounce@mailer.example>" ]}
       request_20 ∅) = 0.
Proof. vm_compute. reflexivity. Qed.

Example five_confirmations :
  getTrustedSenderBoost (Some "trusted.example")
    (record_all (repeat (Some "trusted.example", 1000) 5) ∅) = 25 /\
  getTrustedSenderBoost (Some "trusted.example")
    (record_all (repeat (Some "trusted.example", 1000) 4) ∅) = 20.
Proof. vm_compute. split; reflexivity. Qed.

Example feedback_records_domain :
  getTrustedSenderBoost (Some "example.com")
    (feedback_update "safe" "Alice <Alice@Example.com>" 1000 ∅) = 5.
Proof. vm_compute. reflexivity. Qed.

Example parseFloat_samples :
  parseFloat "87.5" = Fin (175 # 2) /\ parseFloat " 12abc" = Fin 12 /\
  parseFloat "1e2" = Fin 100 /\ parseFloat "n/a" = NaN /\
  parseFloat "" = NaN /\ parseFloat "-Infinity" = Inf true.
Proof. vm_compute. repeat split. Qed.

Example regex_samples :
  match_all true re_url "see HTTP://a.b/c) and https://x.y z" =
    ["HTTP://a.b/c"; "https://x.y"] /\
  test false re_ip_url "http://192.168.1.5/login" = true /\
  test false re_ip_url "http://192.168.1.5" = false /\
  email (displayNameAndEmail "Alice <Alice@Example.COM>") = "Alice@Example.COM" /\
  email (displayNameAndEmail "write to bob@x.io now") = "bob@x.io" /\
  domainFromAddress "Alice@Example.COM> x" = Some "example.com" /\
  test true re_attachment "an Attachment." = true /\
  test true re_attachment "attachments" = false.
Proof. vm_compute. repeat split. Qed.

(* ===================================================================== *)
(** * Part III: further properties                                        *)
(* ===================================================================== *)

(** ** [fetchMessageMetadata]: the header object *)



(** ** [findMessageId]: the quoting of the query *)

Lemma quotes_escaped_weaken (p : option ascii) (l : list ascii) :
  quotes_escaped None l = true -> quotes_escaped p l = true.
Proof.
  destruct l as [|c l]; [reflexivity|]. cbn [quotes_escaped].
  destruct (Ascii.eqb c dquote); [discriminate | auto].
Qed.

Lemma quotes_escaped_app (p : option ascii) (l1 l2 : list ascii) :
  quotes_escaped p (l1 ++ l2) = true -> quotes_escaped p l1 = true.
Proof.
  revert p. induction l1 as [|c l1 IH]; intros p H; [reflexivity|].
  cbn [quotes_escaped app] in *. apply andb_true_iff in H as [H1 H2].
  rewrite H1. cbn. eauto.
Qed.

Lemma is_space_not_special (c : ascii) :
  is_space c = true -> Ascii.eqb c backslash = false /\ Ascii.eqb c dquote = false.
Proof.
  destruct c as [[] [] [] [] [] [] [] []]; cbn; intros H;
    first [discriminate | split; reflexivity].
Qed.

Lemma quotes_escaped_drop_space (l : list ascii) :
  quotes_escaped None l = true -> quotes_escaped None (drop_space l) = true.
Proof.
  induction l as [|c l IH]; intros H; [reflexivity|].
  cbn [drop_space]. destruct (is_space c) eqn:Es; [|exact H].
  apply IH. cbn [quotes_escaped] in H. apply andb_true_iff in H as [_ H].
  destruct (is_space_not_special c Es) as [Hb _].
  destruct l as [|d l]; [reflexivity|]. cbn [quotes_escaped] in *.
  rewrite Hb in H. destruct (Ascii.eqb d dquote); [discriminate | exact H].
Qed.

(** What [drop_space] removes at the end of a text is a suffix of it. *)
Lemma drop_trailing_prefix (l : list ascii) :
  exists suffix, l = rev (drop_space (rev l)) ++ suffix.
Proof.
  assert (H : forall r : list ascii, exists pre, r = pre ++ drop_space r).
  { induction r as [|c r [pre IH]]; [now exists []|].
    cbn [drop_space]. destruct (is_space c).
    - exists (c :: pre). cbn. now rewrite <- IH.
    - now exists []. }
  destruct (H (rev l)) as [pre Hpre]. exists (rev pre).
  rewrite <- rev_app_distr, <- Hpre. now rewrite rev_involutive.
Qed.

Lemma quotes_escaped_flat_map (p : option ascii) (l : list ascii) :
  quotes_escaped p
    (flat_map (fun c => if Ascii.eqb c dquote then [backslash; dquote] else [c]) l)
  = true.
Proof.
  revert p. induction l as [|c l IH]; intros p; [reflexivity|].
  cbn [flat_map]. destruct (Ascii.eqb c dquote) eqn:E.
  - cbn [app]. unfold quotes_escaped; fold quotes_escaped.
    change (Ascii.eqb backslash dquote) with false.
    change (Ascii.eqb dquote dquote) with true.
    change (Ascii.eqb backslash backslash) with true.
    cbn [andb]. apply IH.
  - cbn [app]. unfold quotes_escaped; fold quotes_escaped.
    rewrite E. cbn [andb]. apply IH.
Qed.

(** X2.  In the text that [safe] puts between the quotes of the search
    query, every double quote comes right after a backslash, whatever the
    subject or sender text. *)
Theorem safe_escapes_quotes (s : string) :
  quotes_escaped None (list_ascii_of_string (safe s)) = true.
Proof.
  unfold safe, trim, escape_quotes.
  rewrite !list_ascii_of_string_of_list_ascii.
  set (e := flat_map _ _).
  assert (He : quotes_escaped None e = true)
    by apply quotes_escaped_flat_map.
  apply quotes_escaped_drop_space in He.
  destruct (drop_trailing_prefix (drop_space e)) as [suffix Hs].
  rewrite Hs in He. now apply quotes_escaped_app in He.
Qed.

(** ** [parseAuthResults] and [headerTrustFromParsed], further *)

Lemma protocol_verdict_pass_iff (lower proto : string) :
  protocol_verdict lower proto = Some VPass <->
  includes lower (proto +:+ "=pass") = true.
Proof.
  unfold protocol_verdict.
  destruct (includes lower (proto +:+ "=pass")); [tauto|].
  destruct (includes lower (proto +:+ "=fail")); split; discriminate.
Qed.

Lemma includes_embedded (s sub pre post : string) :
  includes s sub = true -> includes (pre +:+ s +:+ post) sub = true.
Proof.
  rewrite !includes_spec. intros (a & b & ->).
  exists (pre +:+ a), (b +:+ post).
  clear. induction pre as [|c pre IH]; [|now rewrite !app_cons, IH].
  rewrite !app_empty.
  induction a as [|c a IH]; [|now rewrite !app_cons, IH].
  rewrite !app_empty.
  induction sub as [|c sub IH]; [|now rewrite !app_cons, IH].
  reflexivity.
Qed.

Lemma protocol_verdict_embedded (s pre post proto : string) :
  protocol_verdict (toLowerCase s) proto = Some VPass ->
  protocol_verdict (toLowerCase (pre +:+ s +:+ post)) proto = Some VPass.
Proof.
  rewrite !protocol_verdict_pass_iff, !toLowerCase_app.
  apply includes_embedded.
Qed.

(** X3.  A pass verdict survives any text put around the header: when
    [parseAuthResults] resolves a protocol to pass on a string, it resolves
    it to pass on every string that contains it. *)
Theorem parse_pass_survives_embedding (s pre post : string) :
  (spf (parseAuthResults (JStr s)) = Some VPass ->
   spf (parseAuthResults (JStr (pre +:+ s +:+ post))) = Some VPass) /\
  (dkim (parseAuthResults (JStr s)) = Some VPass ->
   dkim (parseAuthResults (JStr (pre +:+ s +:+ post))) = Some VPass) /\
  (dmarc (parseAuthResults (JStr s)) = Some VPass ->
   dmarc (parseAuthResults (JStr (pre +:+ s +:+ post))) = Some VPass).
Proof.
  destruct (parseAuthResults_fields s) as (Hs & Hk & Hm).
  destruct (parseAuthResults_fields (pre +:+ s +:+ post)) as (Hs' & Hk' & Hm').
  cbv zeta in *. rewrite Hs, Hk, Hm, Hs', Hk', Hm'.
  repeat split; apply protocol_verdict_embedded.
Qed.

Lemma toLowerCase_truthy (s s' : string) :
  toLowerCase s = toLowerCase s' -> truthy_str s = truthy_str s'.
Proof. destruct s, s'; cbn; intros H; congruence. Qed.

(** X4.  [parseAuthResults] reads its input up to letter case: two strings
    with the same lower-case form get the same three verdicts. *)
Theorem parse_case_insensitive (s s' : string) :
  toLowerCase s = toLowerCase s' ->
  spf (parseAuthResults (JStr s)) = spf (parseAuthResults (JStr s')) /\
  dkim (parseAuthResults (JStr s)) = dkim (parseAuthResults (JStr s')) /\
  dmarc (parseAuthResults (JStr s)) = dmarc (parseAuthResults (JStr s')).
Proof.
  intros H.
  destruct (parseAuthResults_fields s) as (Hs & Hk & Hm).
  destruct (parseAuthResults_fields s') as (Hs' & Hk' & Hm').
  cbv zeta in *. now rewrite Hs, Hk, Hm, Hs', Hk', Hm', H.
Qed.

Lemma parse_case_insensitive_witness :
  spf (parseAuthResults (JStr "SPF=PASS dkim=Fail")) =
    spf (parseAuthResults (JStr "spf=pass DKIM=FAIL")) /\
  dkim (parseAuthResults (JStr "SPF=PASS dkim=Fail")) =
    dkim (parseAuthResults (JStr "spf=pass DKIM=FAIL")) /\
  dmarc (parseAuthResults (JStr "SPF=PASS dkim=Fail")) =
    dmarc (parseAuthResults (JStr "spf=pass DKIM=FAIL")).
Proof.
  apply (parse_case_insensitive "SPF=PASS dkim=Fail" "spf=pass DKIM=FAIL").
  reflexivity.
Defined.

Lemma delta_monotone (a b : option verdict) (w : Z) :
  0 <= w -> rank a <= rank b -> delta a w <= delta b w.
Proof. destruct a as [[]|], b as [[]|]; cbn; lia. Qed.

(** X5.  The trust of the verdicts is monotone: improving any of the three
    verdicts, from fail to unknown or from unknown to pass, never lowers
    [headerTrustFromParsed]. *)
Theorem headerTrust_monotone (a b : AuthVerdict) :
  rank (spf a) <= rank (spf b) ->
  rank (dkim a) <= rank (dkim b) ->
  rank (dmarc a) <= rank (dmarc b) ->
  headerTrustFromParsed (Some a) <= headerTrustFromParsed (Some b).
Proof.
  intros Hs Hk Hm. rewrite !headerTrustFromParsed_value.
  pose proof (delta_monotone _ _ 40 ltac:(lia) Hs).
  pose proof (delta_monotone _ _ 40 ltac:(lia) Hk).
  pose proof (delta_monotone _ _ 20 ltac:(lia) Hm).
  apply clamp_le. lia.
Qed.

Lemma headerTrust_monotone_witness :
  headerTrustFromParsed
    (Some {| spf := Some VFail; dkim := None; dmarc := None; raw := "" |}) <=
  headerTrustFromParsed
    (Some {| spf := None; dkim := Some VPass; dmarc := None; raw := "" |}).
Proof.
  apply headerTrust_monotone; cbn; lia.
Defined.

(** X6.  When spf and dkim agree, dmarc carries no weight: the trust is
    100 when both pass and 0 when both fail, whatever the dmarc verdict;
    the clamp absorbs its 20 points. *)
Theorem headerTrust_dmarc_absorbed (v : AuthVerdict) :
  (spf v = Some VPass -> dkim v = Some VPass ->
   headerTrustFromParsed (Some v) = 100) /\
  (spf v = Some VFail -> dkim v = Some VFail ->
   headerTrustFromParsed (Some v) = 0).
Proof.
  rewrite headerTrustFromParsed_value.
  split; intros -> ->; destruct (dmarc v) as [[]|]; reflexivity.
Qed.

(** ** [detectGoogleRelay] *)

Lemma includes_trans (s mid sub : string) :
  includes mid sub = true -> includes s mid = true -> includes s sub = true.
Proof.
  intros H1 H2. apply includes_spec in H2 as (pre & post & ->).
  now apply includes_embedded.
Qed.

Lemma existsb_keys (headers : gmap string string) (f : string -> bool) :
  existsb f (map (fun kv => toLowerCase (fst kv)) (map_to_list headers)) = true <->
  exists k v, headers !! k = Some v /\ f (toLowerCase k) = true.
Proof.
  rewrite existsb_exists. split.
  - intros (x & Hin & Hf). apply in_map_iff in Hin as ([k v] & <- & Hin).
    exists k, v. split; [|exact Hf].
    apply elem_of_map_to_list. now apply list_elem_of_In.
  - intros (k & v & Hk & Hf). exists (toLowerCase k). split; [|exact Hf].
    apply in_map_iff. exists (k, v). split; [reflexivity|].
    apply list_elem_of_In. now apply elem_of_map_to_list.
Qed.

(** X7.  [detectGoogleRelay] answers true exactly when some header name
    contains [x-google], [x-gm-] or [arc-seal] in any letter case, or the
    message has a non-empty [Delivered-To] (or [delivered-to]) header; the
    test for [x-google-smtp-source] adds nothing to the one for
    [x-google]. *)
Theorem detectGoogleRelay_iff (headers : gmap string string) :
  detectGoogleRelay headers = true <->
  (exists k v, headers !! k = Some v /\
     (includes (toLowerCase k) "x-google" = true \/
      includes (toLowerCase k) "x-gm-" = true \/
      includes (toLowerCase k) "arc-seal" = true)) \/
  header headers "Delivered-To" <> "" \/
  header headers "delivered-to" <> "".
Proof.
  unfold detectGoogleRelay. cbv zeta.
  set (keys := map _ _).
  pose proof (existsb_keys headers (fun k => includes k "x-google-smtp-source")) as K0.
  pose proof (existsb_keys headers (fun k => includes k "x-google")) as K1.
  pose proof (existsb_keys headers (fun k => includes k "x-gm-")) as K2.
  pose proof (existsb_keys headers (fun k => includes k "arc-seal")) as K3.
  fold keys in K0, K1, K2, K3. cbv beta in K0, K1, K2, K3.
  assert (D : truthy_str (or_str (header headers "Delivered-To")
                                 (header headers "delivered-to")) = true <->
              header headers "Delivered-To" <> "" \/
              header headers "delivered-to" <> "").
  { unfold or_str.
    destruct (header headers "Delivered-To"), (header headers "delivered-to");
      cbn; split; intros H; try discriminate; try reflexivity;
      try (left; discriminate); try (right; discriminate).
    destruct H as [H|H]; now elim H. }
  destruct (existsb _ keys) eqn:E0.
  { split; [intros _|reflexivity]. left.
    destruct (proj1 K0 eq_refl) as (k & v & Hk & Hf).
    exists k, v. split; [exact Hk|]. left.
    eapply includes_trans; [|exact Hf]. reflexivity. }
  destruct (existsb (fun k => includes k "x-google") keys) eqn:E1.
  { split; [intros _|reflexivity]. left.
    destruct (proj1 K1 eq_refl) as (k & v & Hk & Hf). exists k, v. auto. }
  destruct (existsb (fun k => includes k "x-gm-") keys) eqn:E2.
  { split; [intros _|reflexivity]. left.
    destruct (proj1 K2 eq_refl) as (k & v & Hk & Hf). exists k, v. auto. }
  destruct (existsb (fun k => includes k "arc-seal") keys) eqn:E3.
  { split; [intros _|reflexivity]. left.
    destruct (proj1 K3 eq_refl) as (k & v & Hk & Hf). exists k, v. auto. }
  destruct (truthy_str _) eqn:E4.
  { split; [intros _|reflexivity]. right. now apply D. }
  split; [discriminate|]. intros [(k & v & Hk & [Hf|[Hf|Hf]])|H].
  - assert (false = true) by (apply K1; eauto). discriminate.
  - assert (false = true) by (apply K2; eauto). discriminate.
  - assert (false = true) by (apply K3; eauto). discriminate.
  - apply D in H. discriminate.
Qed.

(** ** The timed caches, further *)

Section CacheLookups.
Context {A : Type}.
Implicit Types (m : gmap string (CacheEntry A)) (k : string).

Lemma cacheGet_hit m k (e : CacheEntry A) (t : Z) :
  m !! k = Some e -> (t - ts e >? effective_ttl (ttl e)) = false ->
  cacheGet m k t = (Some (data e), m).
Proof. intros H1 H2. unfold cacheGet. now rewrite H1, H2. Qed.

Lemma cacheGet_evict m k (e : CacheEntry A) (t : Z) :
  m !! k = Some e -> (t - ts e >? effective_ttl (ttl e)) = true ->
  cacheGet m k t = (None, delete k m).
Proof. intros H1 H2. unfold cacheGet. now rewrite H1, H2. Qed.

(** X8.  A cache lookup is idempotent; a miss is permanent, whatever the
    clock of the later lookups, until the key is set again; an entry found
    expired at one time is expired at every later time; and a lookup never
    adds a key to the cache. *)
Theorem cacheGet_lookup_laws m k (t : Z) :
  cacheGet (snd (cacheGet m k t)) k t = cacheGet m k t /\
  (fst (cacheGet m k t) = None ->
   forall t', cacheGet (snd (cacheGet m k t)) k t' =
              (None, snd (cacheGet m k t))) /\
  (fst (cacheGet m k t) = None ->
   forall t', t <= t' -> fst (cacheGet m k t') = None) /\
  dom (snd (cacheGet m k t)) ⊆ dom m.
Proof.
  destruct (m !! k) as [e|] eqn:E.
  - destruct (t - ts e >? effective_ttl (ttl e)) eqn:Ex.
    + rewrite (cacheGet_evict m k e t E Ex). cbn [fst snd].
      assert (Hd : delete k m !! k = None) by apply lookup_delete_eq.
      split; [now apply cacheGet_missing|].
      split; [intros _ t'; now apply cacheGet_missing|].
      split.
      * intros _ t' Ht.
        rewrite (cacheGet_evict m k e t' E); [reflexivity | lia].
      * apply subseteq_dom, delete_subseteq.
    + rewrite (cacheGet_hit m k e t E Ex). cbn [fst snd].
      rewrite (cacheGet_hit m k e t E Ex).
      split; [reflexivity|]. split; [discriminate|]. split; [discriminate|].
      reflexivity.
  - rewrite (cacheGet_missing m k t E). cbn [fst snd].
    split; [now apply cacheGet_missing|].
    split; [intros _ t'; now apply cacheGet_missing|].
    split; [|reflexivity].
    intros _ t' _. now rewrite (cacheGet_missing m k t' E).
Qed.
End CacheLookups.

(** ** The trusted-sender ledger, further *)






(** ** [domainFromAddress] and the feedback handler *)

Lemma lower_ascii_idempotent (c : ascii) :
  lower_ascii (lower_ascii c) = lower_ascii c.
Proof. destruct c as [[] [] [] [] [] [] [] []]; reflexivity. Qed.

Lemma toLowerCase_idempotent (s : string) :
  toLowerCase (toLowerCase s) = toLowerCase s.
Proof.
  induction s as [|c s IH]; [reflexivity|].
  cbn [toLowerCase]. now rewrite lower_ascii_idempotent, IH.
Qed.

(** A domain that [domainFromAddress] returns is not empty and is in lower
    case. *)
Lemma domainFromAddress_normal (addr d : string) :
  domainFromAddress addr = Some d -> d <> "" /\ toLowerCase d = d.
Proof.
  unfold domainFromAddress.
  destruct (negb (truthy_str addr)); [discriminate|].
  destruct (exec false re_domain addr) as [m|]; [|discriminate].
  destruct (capture addr m 1) as [x|]; cbn [truthy_opt option_map];
    [|discriminate].
  destruct (truthy_str x) eqn:Ex; [|discriminate]. intros [= <-]. split.
  - destruct x; [discriminate | cbn [toLowerCase]; discriminate].
  - apply toLowerCase_idempotent.
Qed.

Lemma includes_at_false (rest : list ascii) :
  includes (string_of_list_ascii rest) "@" = false ->
  Forall (fun c => Ascii.eqb "@" c = false) rest.
Proof.
  induction rest as [|c rest IH]; intros H; [constructor|].
  cbn [string_of_list_ascii includes startsWith] in H.
  apply orb_false_iff in H as [H1 H2]. rewrite andb_true_r in H1.
  constructor; [exact H1 | now apply IH].
Qed.

Lemma exec_domain_no_at (rest : list ascii) (pos : nat) (prev : option ascii) :
  Forall (fun c => Ascii.eqb "@" c = false) rest ->
  exec_from false re_domain pos prev rest = None.
Proof.
  intros H. revert pos prev.
  induction H as [|c rest Hc _ IH]; intros pos prev.
  - reflexivity.
  - cbn [exec_from]. unfold re_domain at 1. cbn [rseq fold_right rmatch m_rest chr].
    unfold set_matches. cbn [existsb citem_matches andb orb xorb].
    rewrite Hc. cbn [orb]. apply IH.
Qed.

(** X10.  [domainFromAddress] returns only non-empty domains in lower
    case, and returns none for a text without [@]. *)
Theorem domainFromAddress_results (addr : string) :
  (forall d, domainFromAddress addr = Some d -> d <> "" /\ toLowerCase d = d) /\
  (includes addr "@" = false -> domainFromAddress addr = None).
Proof.
  split; [intros d; apply domainFromAddress_normal|].
  intros H. unfold domainFromAddress.
  destruct (negb (truthy_str addr)); [reflexivity|].
  unfold exec. rewrite exec_domain_no_at; [reflexivity|].
  apply includes_at_false. now rewrite string_of_list_ascii_of_string.
Qed.

Lemma feedback_update_cases (label fromText : string) (now : Z)
    (ledger : gmap string TrustRecord) :
  feedback_update label fromText now ledger = ledger \/
  exists d, d <> "" /\ toLowerCase d = d /\ label = "safe" /\
            feedback_update label fromText now ledger =
            addTrustedSenderDomain (Some d) now ledger.
Proof.
  unfold feedback_update.
  destruct (String.eqb label "safe") eqn:El; [|now left].
  apply String.eqb_eq in El. cbn [andb].
  destruct (truthy_str fromText); [|now left].
  destruct (domainFromAddress _) as [d|] eqn:Ed; [|now left].
  destruct (truthy_opt (Some d)); [|now left].
  right. exists d. destruct (domainFromAddress_normal _ _ Ed). auto.
Qed.

(** X11.  A feedback changes the ledger only when its label is [safe]; it
    never lowers the boost of any domain; it keeps the counts
    non-negative; and the only record it can change is that of a
    non-empty, lower-case domain. *)
Theorem feedback_effects (label fromText : string) (now : Z)
    (ledger : gmap string TrustRecord) :
  (label <> "safe" -> feedback_update label fromText now ledger = ledger) /\
  (forall d, getTrustedSenderBoost d ledger <=
             getTrustedSenderBoost d (feedback_update label fromText now ledger)) /\
  (ledger_wf ledger -> ledger_wf (feedback_update label fromText now ledger)) /\
  (forall d, feedback_update label fromText now ledger !! d <> ledger !! d ->
             d <> "" /\ toLowerCase d = d).
Proof.
  destruct (feedback_update_cases label fromText now ledger)
    as [E|(d0 & Hd0 & Hl0 & Hlab & E)]; rewrite E.
  - repeat split; try reflexivity; try tauto; intros; try lia; congruence.
  - split; [congruence|]. split; [intros d; apply boost_step|].
    split; [apply add_preserves_wf|].
    intros d Hd. destruct (decide (Some d0 = Some d)) as [[= <-]|Hne]; [auto|].
    now rewrite add_lookup_other in Hd.
Qed.

(** ** The handlers and their caches *)

Lemma state_eta (st : State) :
  with_query_cache st (QUERY_CACHE st) = st.
Proof. now destruct st. Qed.

(** A live entry of the query cache is served as it is, and nothing
    changes. *)
Lemma get_headers_served (c : Collaborators) (payload : Payload) (t : Z)
    (st : State) (r : HeaderResult) :
  cacheGet (QUERY_CACHE st) (query_key payload) t = (Some r, QUERY_CACHE st) ->
  get_headers c payload t st = (HeadersOk r, st).
Proof.
  intros H. unfold get_headers. cbv zeta. fold (query_key payload).
  rewrite H. now rewrite state_eta.
Qed.

(** After a lookup that missed the query cache and succeeded, the query
    cache holds the result, stored at the time of the lookup. *)
Lemma get_headers_stores (c : Collaborators) (payload : Payload) (t : Z)
    (st : State) (r : HeaderResult) :
  fst (cacheGet (QUERY_CACHE st) (query_key payload) t) = None ->
  fst (get_headers c payload t st) = HeadersOk r ->
  QUERY_CACHE (snd (get_headers c payload t st)) =
  cacheSet (snd (cacheGet (QUERY_CACHE st) (query_key payload) t))
           (query_key payload) r QUERY_CACHE_TTL_MS t.
Proof.
  unfold get_headers. cbv zeta. fold (query_key payload).
  destruct (cacheGet (QUERY_CACHE st) (query_key payload) t) as [cached qc].
  cbn [fst snd]. intros ->.
  destruct (negb (truthy_opt _)); [discriminate|].
  destruct (findMessageId c) as [[msgId|]|err]; [|discriminate|discriminate].
  destruct (negb (truthy_str msgId)); [discriminate|].
  change (HEADER_CACHE (with_query_cache st qc)) with (HEADER_CACHE st).
  destruct (cacheGet (HEADER_CACHE st) msgId t) as [headerCached hc].
  destruct headerCached as [r'|].
  - cbn [fst snd]. now intros [= <-].
  - destruct (fetchMessageMetadata c) as [hdrs|err]; [|discriminate].
    cbn [fst snd]. now intros [= <-].
Qed.

(** X12.  A header lookup that was computed rather than served from the
    query cache, and succeeded, is repeated from the cache: for five
    minutes the same payload gets the same answer and leaves the state as
    it is, whatever the collaborators do in the meantime. *)
Theorem get_headers_repeat (c c' : Collaborators) (payload : Payload)
    (t0 t1 : Z) (st : State) :
  fst (cacheGet (QUERY_CACHE st) (query_key payload) t0) = None ->
  (exists r, fst (get_headers c payload t0 st) = HeadersOk r) ->
  t1 - t0 <= QUERY_CACHE_TTL_MS ->
  get_headers c' payload t1 (snd (get_headers c payload t0 st)) =
  get_headers c payload t0 st.
Proof.
  intros Hmiss [r Hr] Ht.
  pose proof (get_headers_stores c payload t0 st r Hmiss Hr) as Hq.
  destruct (get_headers c payload t0 st) as [resp st1]. cbn [fst snd] in *.
  subst resp. apply get_headers_served. rewrite Hq.
  apply cacheGet_live. exact Ht.
Qed.

Lemma get_headers_repeat_witness :
  get_headers offline request_20 1000
    (snd (get_headers spoofed_mail request_20 0 empty_state)) =
  get_headers spoofed_mail request_20 0 empty_state.
Proof.
  apply (get_headers_repeat spoofed_mail offline request_20 0 1000 empty_state).
  - reflexivity.
  - eexists. reflexivity.
  - vm_compute. discriminate.
Defined.

(** The header cache after a lookup that fetched the message. *)
Lemma get_headers_fetches (c : Collaborators) (payload : Payload) (t : Z)
    (st : State) (tok id : string) (hdrs : gmap string string) :
  fst (cacheGet (QUERY_CACHE st) (query_key payload) t) = None ->
  fst (cacheGet (HEADER_CACHE st) id t) = None ->
  getGmailToken c = Returns tok -> tok <> "" ->
  findMessageId c = Returns (Some id) -> id <> "" ->
  fetchMessageMetadata c = Returns hdrs ->
  fst (get_headers c payload t st) =
    HeadersOk (header_result id hdrs payload (trustedSenders st)) /\
  HEADER_CACHE (snd (get_headers c payload t st)) =
    cacheSet (snd (cacheGet (HEADER_CACHE st) id t)) id
             (header_result id hdrs payload (trustedSenders st)) CACHE_TTL_MS t.
Proof.
  intros Hq Hh Htok Htok' Hid Hid' Hf.
  unfold get_headers. cbv zeta. fold (query_key payload).
  destruct (cacheGet (QUERY_CACHE st) (query_key payload) t) as [cached qc].
  cbn [fst] in Hq. subst cached. rewrite Htok, Hid, Hf.
  destruct tok; [congruence|]. destruct id as [|i0 id]; [congruence|].
  cbn [truthy_opt truthy_str negb].
  change (HEADER_CACHE (with_query_cache st qc)) with (HEADER_CACHE st).
  destruct (cacheGet (HEADER_CACHE st) (String i0 id) t) as [headerCached hc].
  cbn [fst] in Hh. subst headerCached. cbn [fst snd]. split; reflexivity.
Qed.

(** X13.  The two handlers share the header cache: once [get_headers] has
    fetched a message, [get_scores] takes the trust of that message from
    the cache for ten minutes, without fetching, reading a cached trust of
    0 as the neutral 50. *)
Theorem get_scores_reuses_fetched_trust (c c' : Collaborators)
    (payload payload' : Payload) (t0 t1 : Z) (st : State)
    (tok tok' id : string) (hdrs : gmap string string) :
  fst (cacheGet (QUERY_CACHE st) (query_key payload) t0) = None ->
  fst (cacheGet (HEADER_CACHE st) id t0) = None ->
  getGmailToken c = Returns tok -> tok <> "" ->
  findMessageId c = Returns (Some id) -> id <> "" ->
  fetchMessageMetadata c = Returns hdrs ->
  getGmailToken c' = Returns tok' -> tok' <> "" ->
  findMessageId c' = Returns (Some id) ->
  t1 - t0 <= CACHE_TTL_MS ->
  fst (get_headers c payload t0 st) =
    HeadersOk (header_result id hdrs payload (trustedSenders st)) /\
  resp_headerTrust
    (fst (get_scores c' payload' t1 (snd (get_headers c payload t0 st)))) =
  or_Z (trustBoost (header_result id hdrs payload (trustedSenders st))) 50.
Proof.
  intros Hq Hh Htok Htok0 Hid Hid0 Hf Htok' Htok0' Hid' Ht.
  destruct (get_headers_fetches c payload t0 st tok id hdrs
              Hq Hh Htok Htok0 Hid Hid0 Hf) as [Hr Hc].
  split; [exact Hr|].
  destruct (get_headers c payload t0 st) as [resp st1]. cbn [fst snd] in *.
  unfold get_scores, fetch_header_trust. cbv zeta.
  rewrite Htok', Hid', Hc.
  destruct tok'; [congruence|]. destruct id as [|i0 id]; [congruence|].
  cbn [truthy_opt truthy_str].
  rewrite cacheGet_live by exact Ht.
  destruct (ensemble _ _ _) as [mlVal finalScore]. reflexivity.
Qed.

Lemma get_scores_reuses_fetched_trust_witness :
  resp_headerTrust
    (fst (get_scores fetch_down request_80 60000
            (snd (get_headers spoofed_mail request_20 0 empty_state)))) =
  or_Z (trustBoost (header_result "m-1" spoofed_headers request_20 ∅)) 50.
Proof.
  apply (get_scores_reuses_fetched_trust spoofed_mail fetch_down request_20
           request_80 0 60000 empty_state "token" "token" "m-1" spoofed_headers);
    first [ reflexivity | discriminate ].
Defined.

(** ** The two computations of the header trust *)

(** The two orders of the relay bonus and the mismatch penalty give the
    same trust unless both apply to a baseline outside [30,80]. *)
Lemma adjustments_commute (t b : Z) (m g : bool) :
  0 <= t <= 100 ->
  m = false \/ g = false \/ 30 <= t <= 80 ->
  (let u := if g then Z.min 100 (t + 20) else t in
   let u := if m then Z.max 0 (u - 30) else u in
   if b =? 0 then u else Z.min 100 (u + b)) =
  (let v := if m then Z.max 0 (t - 30) else t in
   let v := if g then Z.min 100 (v + 20) else v in
   if b =? 0 then v else Z.min 100 (v + b)).
Proof.
  intros Ht H. cbv zeta. destruct m, g, (b =? 0); try reflexivity;
    destruct H as [H|[H|H]]; try discriminate; lia.
Qed.

(** X14.  [get_scores] and [get_headers] compute the same trust for a
    message whose headers use the canonical names, unless the message is
    both relayed and mismatched and its baseline lies outside [30,80]: the
    two handlers apply the relay bonus and the mismatch penalty in
    opposite orders, and the clamps make the order matter only there. *)
Theorem handlers_agree_on_trust (id : string) (headers : gmap string string)
    (payload : Payload) (ledger : gmap string TrustRecord) :
  canonical_headers headers ->
  envelopeMismatch (header_result id headers payload ledger) = Some false \/
  googleRelay (header_result id headers payload ledger) = Some false \/
  30 <= headerTrustFromParsed
          (Some (parsed (header_result id headers payload ledger))) <= 80 ->
  snd (scores_header_trust headers payload ledger) =
  trustBoost (header_result id headers payload ledger).
Proof.
  intros (H1 & H2 & H3 & H4 & H5).
  unfold header_result, adjust_trust, scores_header_trust. cbv zeta.
  rewrite H1, H2, H3, H4, H5. rewrite !or_str_empty_r.
  cbn [trustBoost envelopeMismatch googleRelay parsed snd].
  set (t := headerTrustFromParsed _).
  set (m := domains_differ _ _).
  set (g := detectGoogleRelay headers).
  set (b := getTrustedSenderBoost _ ledger).
  intros H.
  apply (adjustments_commute t b m g).
  - apply headerTrustFromParsed_range.
  - destruct H as [H|[H|H]]; [left|right; left|right; right]; congruence.
Qed.

Lemma handlers_agree_on_trust_witness :
  snd (scores_header_trust neutral_relayed_headers request_20 ∅) =
  trustBoost (header_result "m-1" neutral_relayed_headers request_20 ∅).
Proof.
  apply (handlers_agree_on_trust "m-1" neutral_relayed_headers request_20 ∅).
  - repeat split.
  - right. right. vm_compute. split; discriminate.
Defined.

(** The orders do differ: for a relayed, mismatched message that passes the
    three checks, [get_headers] reports 90 and [get_scores] 70. *)
Example handlers_disagree :
  trustBoost (header_result "m-1" relayed_headers request_20 ∅) = 90 /\
  snd (scores_header_trust relayed_headers request_20 ∅) = 70.
Proof. vm_compute. split; reflexivity. Qed.

(** ** [get_scores]: the final score *)

(** X15.  For a finite local score, [get_scores] answers [ok] with a final
    score that is an integer of [0,100], whatever the token, the search,
    the fetch, the caches and the ledger do, provided the score read from
    the ML reply is not NaN. *)
Theorem get_scores_final_in_range (c : Collaborators) (payload : Payload)
    (now : Z) (st : State) (l : Q) :
  localScore payload = Some (Fin l) ->
  (forall text, read_ml_score (ml_backend c text) <> JNum NaN) ->
  ok (fst (get_scores c payload now st)) = true /\
  exists z, final_score (fst (get_scores c payload now st)) = num_of_Z z /\
            0 <= z <= 100.
Proof.
  intros Hl Hml. unfold get_scores. cbv zeta. rewrite Hl.
  destruct (fetch_header_trust c payload now st) as [t hc].
  match goal with
  | |- context [ensemble (Fin l) ?ml t] =>
      destruct (ensemble_range l ml t (Hml _)) as (z & Hz & Hr);
      destruct (ensemble (Fin l) ml t) as [mlVal finalScore]
  end.
  cbn [fst snd ok final_score] in *. split; [reflexivity|]. eauto.
Qed.

Lemma get_scores_final_in_range_witness :
  ok (fst (get_scores spoofed_mail request_20 0 empty_state)) = true /\
  exists z, final_score (fst (get_scores spoofed_mail request_20 0 empty_state)) =
            num_of_Z z /\ 0 <= z <= 100.
Proof.
  apply (get_scores_final_in_range spoofed_mail request_20 0 empty_state 20).
  - reflexivity.
  - intros text. cbn. discriminate.
Defined.

(** ** The message listener *)

Lemma feedback_update_wf (label fromText : string) (now : Z)
    (ledger : gmap string TrustRecord) :
  ledger_wf ledger -> ledger_wf (feedback_update label fromText now ledger).
Proof.
  intros Hwf.
  destruct (feedback_update_cases label fromText now ledger)
    as [E|(d & _ & _ & _ & E)]; rewrite E; [exact Hwf|].
  now apply add_preserves_wf.
Qed.

Lemma onMessage_invariant (c : Collaborators) (interactive : outcome string)
    (msg : option Message) (now : Z) (w : Worker) :
  state_ok (handler_state w) ->
  state_ok (handler_state (snd (onMessage c interactive msg now w))) /\
  response_in_range (fst (onMessage c interactive msg now w)).
Proof.
  intros Hst. unfold onMessage.
  destruct msg as [msg|]; [|now split].
  destruct (negb (truthy_str (msg_type msg))); [now split|].
  destruct (String.eqb (msg_type msg) "interactive_auth").
  { destruct interactive; now split. }
  destruct (String.eqb (msg_type msg) "get_headers").
  { destruct (get_headers_invariant c (default empty_payload (msg_payload msg))
                now (handler_state w) Hst) as [H1 H2].
    destruct (get_headers _ _ _ _) as [r st]. cbn [fst snd handler_state] in *.
    split; [exact H1|]. destruct r as [result|err]; [now apply H2 | exact I]. }
  destruct (String.eqb (msg_type msg) "get_scores").
  { destruct (get_scores_invariant c (default empty_payload (msg_payload msg))
                now (handler_state w) Hst) as [H1 H2].
    destruct (get_scores _ _ _ _) as [r st]. cbn [fst snd handler_state] in *.
    now split. }
  destruct (String.eqb (msg_type msg) "feedback"); [|now split].
  cbn [fst snd handler_state response_in_range]. split; [|exact I].
  destruct Hst as (Hh & Hq & Hl).
  split; [exact Hh|]. split; [exact Hq|]. now apply feedback_update_wf.
Qed.

Lemma run_invariant_from (ds : list Delivery) (w : Worker) :
  state_ok (handler_state w) ->
  Forall response_in_range (fst (run ds w)) /\
  state_ok (handler_state (snd (run ds w))).
Proof.
  revert w. induction ds as [|d ds IH]; intros w Hst.
  - cbn. split; [constructor | exact Hst].
  - cbn [run].
    destruct (onMessage_invariant (d_collaborators d) (d_interactive d)
                (d_message d) (d_now d) w Hst) as [H1 H2].
    destruct (onMessage _ _ _ _ w) as [r w1]. cbn [fst snd] in H1, H2.
    destruct (IH w1 H1) as [H3 H4].
    destruct (run ds w1) as [rs w2]. cbn [fst snd] in *.
    split; [now constructor | exact H4].
Qed.

(** X16.  From the initial state, whatever messages arrive, with whatever
    collaborators and clocks, every header answer and every score answer
    of the listener carries a trust of [0,100], and every trust kept in
    the caches is in [0,100]. *)
Theorem run_keeps_trust_in_range (ds : list Delivery) :
  Forall response_in_range (fst (run ds initial_worker)) /\
  state_ok (handler_state (snd (run ds initial_worker))).
Proof. apply run_invariant_from, state_ok_empty. Qed.

Lemma get_headers_ledger (c : Collaborators) (payload : Payload) (now : Z)
    (st : State) :
  trustedSenders (snd (get_headers c payload now st)) = trustedSenders st.
Proof.
  unfold get_headers. cbv zeta.
  destruct (cacheGet (QUERY_CACHE st) _ now) as [cached qc].
  destruct cached as [r|]; [reflexivity|].
  destruct (negb (truthy_opt _)); [reflexivity|].
  destruct (findMessageId c) as [[msgId|]|err]; [|reflexivity|reflexivity].
  destruct (negb (truthy_str msgId)); [reflexivity|].
  destruct (cacheGet (HEADER_CACHE _) msgId now) as [headerCached hc].
  destruct headerCached as [r|]; [reflexivity|].
  destruct (fetchMessageMetadata c); reflexivity.
Qed.

Lemma get_scores_ledger (c : Collaborators) (payload : Payload) (now : Z)
    (st : State) :
  trustedSenders (snd (get_scores c payload now st)) = trustedSenders st /\
  QUERY_CACHE (snd (get_scores c payload now st)) = QUERY_CACHE st.
Proof.
  unfold get_scores. cbv zeta.
  destruct (fetch_header_trust c payload now st) as [t hc].
  destruct (ensemble _ _ t) as [mlVal finalScore]. now split.
Qed.

(** A branch of the listener that returns the worker as it is. *)
Ltac unchanged :=
  cbn [fst snd]; let H := fresh in intros H; exfalso; apply H; reflexivity.

(** X17.  Only a feedback labelled [safe] can change the ledger: after any
    other message the trusted senders are what they were, and a score
    request leaves the query cache alone as well. *)
Theorem only_safe_feedback_changes_ledger (c : Collaborators)
    (interactive : outcome string) (msg : option Message) (now : Z)
    (w : Worker) :
  (trustedSenders (handler_state (snd (onMessage c interactive msg now w))) <>
   trustedSenders (handler_state w) ->
   exists m, msg = Some m /\ msg_type m = "feedback" /\ msg_label m = "safe") /\
  (forall m, msg = Some m -> msg_type m = "get_scores" ->
     QUERY_CACHE (handler_state (snd (onMessage c interactive msg now w))) =
     QUERY_CACHE (handler_state w)).
Proof.
  split.
  - unfold onMessage.
    destruct msg as [msg|]; [|unchanged].
    destruct (negb (truthy_str (msg_type msg))); [unchanged|].
    destruct (String.eqb (msg_type msg) "interactive_auth").
    { destruct interactive; unchanged. }
    destruct (String.eqb (msg_type msg) "get_headers").
    { pose proof (get_headers_ledger c (default empty_payload (msg_payload msg))
                    now (handler_state w)) as H.
      destruct (get_headers _ _ _ _) as [r st]. cbn [fst snd handler_state] in *.
      intros Hne. now elim Hne. }
    destruct (String.eqb (msg_type msg) "get_scores").
    { pose proof (get_scores_ledger c (default empty_payload (msg_payload msg))
                    now (handler_state w)) as [H _].
      destruct (get_scores _ _ _ _) as [r st]. cbn [fst snd handler_state] in *.
      intros Hne. now elim Hne. }
    destruct (String.eqb (msg_type msg) "feedback") eqn:Ef; [|unchanged].
    apply String.eqb_eq in Ef.
    cbn [fst snd handler_state with_ledger trustedSenders]. intros H.
    exists msg. split; [reflexivity|]. split; [exact Ef|].
    destruct (String.eqb (msg_label msg) "safe") eqn:El.
    + now apply String.eqb_eq in El.
    + exfalso. apply H. unfold feedback_update. now rewrite El.
  - intros m -> Hty. unfold onMessage. rewrite Hty.
    cbn [truthy_str negb String.eqb Ascii.eqb Bool.eqb].
    pose proof (get_scores_ledger c (default empty_payload (msg_payload m))
                  now (handler_state w)) as [_ H].
    destruct (get_scores _ _ _ _) as [r st]. exact H.
Qed.

(** ** The click handler, further *)

Lemma estimateLinkRisk_checks (url : string) :
  estimateLinkRisk url = Z.min 100 (link_checks url).
Proof.
  unfold estimateLinkRisk, link_checks. cbv zeta.
  rewrite add_each_count, !if_points. f_equal.
Qed.

Lemma click_intercepts (url : string) (emailRiskScore : Z) :
  isSuspiciousUrl url = true \/ estimateLinkRisk url > 60 ->
  click_handler url emailRiskScore = Intercepted.
Proof.
  intros H. unfold click_handler. cbv zeta. apply gate_intercepts.
  destruct H as [H|H]; [now left|].
  right. destruct (emailRiskScore >? 0); lia.
Qed.

(** X18.  The click handler intercepts a link exactly when the URL matches
    a suspicious pattern, or its link risk is above 60, or the risk of its
    mail row is above 60: the row can only add interceptions. *)
Theorem click_handler_intercepts_iff (url : string) (emailRiskScore : Z) :
  click_handler url emailRiskScore = Intercepted <->
  isSuspiciousUrl url = true \/ estimateLinkRisk url > 60 \/ emailRiskScore > 60.
Proof.
  unfold click_handler. cbv zeta. rewrite gate_intercepts.
  destruct (emailRiskScore >? 0) eqn:E; split; intros [H|H]; auto; right; lia.
Qed.

(** X19.  A link whose URL names a tunnel host, holds a dotted quad, holds
    [verify] with [google], or is plain http with a credential keyword has
    a link risk of at least 70 and is intercepted, whatever its mail
    row. *)
Theorem risky_urls_intercepted (url : string) (emailRiskScore : Z) :
  includes url "ngrok-free.app" = true \/ includes url "ngrok.io" = true \/
  test false re_dotted_quad url = true \/
  (includes url "verify" = true /\ includes url "google" = true) \/
  (includes url "http://" = true /\
   (includes url "login" = true \/ includes url "reset" = true \/
    includes url "forgot" = true)) ->
  70 <= estimateLinkRisk url /\
  click_handler url emailRiskScore = Intercepted.
Proof.
  intros H.
  assert (Hr : 70 <= estimateLinkRisk url).
  { rewrite estimateLinkRisk_checks. unfold link_checks.
    pose proof (count_hits_range (brand_without_domain url) link_brands).
    destruct H as [H|[H|[H|[[H1 H2]|[H1 H2]]]]].
    - rewrite H. cbn [orb]. unfold points at 1. bound_points. lia.
    - rewrite H, orb_true_r. unfold points at 1. bound_points. lia.
    - rewrite H. unfold points at 2. bound_points. lia.
    - rewrite H1, H2. cbn [andb]. unfold points at 3. bound_points. lia.
    - rewrite H1. unfold points at 5.
      assert (Hk : includes url "login" || includes url "reset" ||
                   includes url "forgot" = true).
      { destruct H2 as [-> | [-> | ->]]; now rewrite ?orb_true_r. }
      rewrite Hk. unfold points at 4. bound_points. lia. }
  split; [exact Hr|]. apply click_intercepts. right. lia.
Qed.

Lemma risky_urls_intercepted_witness :
  70 <= estimateLinkRisk "https://promo.ngrok.io/offer" /\
  click_handler "https://promo.ngrok.io/offer" 0 = Intercepted.
Proof.
  apply (risky_urls_intercepted "https://promo.ngrok.io/offer" 0).
  right. left. reflexivity.
Defined.

(** X20.  A URL that names one of the seven brands, in any letter case,
    without the brand between two dots is suspicious and is intercepted,
    whatever else it holds: this includes a URL on the bare domain of the
    brand. *)
Theorem brand_mention_intercepted (url brand : string) (emailRiskScore : Z) :
  In brand suspicious_brands ->
  includes (toLowerCase url) brand = true ->
  includes (toLowerCase url) ("." +:+ brand +:+ ".") = false ->
  isSuspiciousUrl url = true /\
  click_handler url emailRiskScore = Intercepted.
Proof.
  intros Hin H1 H2.
  assert (Hs : isSuspiciousUrl url = true).
  { unfold isSuspiciousUrl. cbv zeta.
    replace (existsb (brand_without_domain (toLowerCase url)) suspicious_brands)
      with true; [reflexivity|].
    symmetry. apply existsb_exists. exists brand. split; [exact Hin|].
    unfold brand_without_domain. now rewrite H1, H2. }
  split; [exact Hs|]. apply click_intercepts. now left.
Qed.

Lemma brand_mention_intercepted_witness :
  isSuspiciousUrl "https://paypal.com/" = true /\
  click_handler "https://paypal.com/" 0 = Intercepted.
Proof.
  apply (brand_mention_intercepted "https://paypal.com/" "paypal" 0).
  - cbn. tauto.
  - reflexivity.
  - reflexivity.
Defined.

(** ** [computeLocalScore] and the badge *)

(** X21.  The random draw moves the lexical score by at most 4: two
    scorings of the same texts differ by at most 4 points. *)
Theorem computeLocalScore_jitter_bound
    (fromText subjectText snippetText rowText : string) (r1 r2 : Q) :
  (0 <= r1)%Q -> (r1 < 1)%Q -> (0 <= r2)%Q -> (r2 < 1)%Q ->
  Z.abs (computeLocalScore fromText subjectText snippetText rowText r1 -
         computeLocalScore fromText subjectText snippetText rowText r2) <= 4.
Proof.
  intros H1 H1' H2 H2'. rewrite !computeLocalScore_sum.
  pose proof (jitter_range r1 H1 H1') as J1. fold (jitter r1) in J1.
  pose proof (jitter_range r2 H2 H2') as J2. fold (jitter r2) in J2.
  lia.
Qed.

Lemma computeLocalScore_jitter_bound_witness :
  Z.abs (computeLocalScore "" "URGENT" "click now" "" (9 # 10) -
         computeLocalScore "" "URGENT" "click now" "" 0) <= 4.
Proof.
  apply computeLocalScore_jitter_bound;
    first [ discriminate | reflexivity ].
Defined.

(** X22.  A rescan leaves the badge of an unchanged row alone: once a row
    has been given a badge, scanning it again with the same subject,
    sender and snippet changes nothing, whatever the new random draw and
    the new row text; and after a scan a row always has a badge and is
    recorded under its hash. *)
Theorem badge_stable_under_rescan (info info' : RowInfo) (rnd rnd' : Q)
    (row : RowState) :
  (row_hash info' = row_hash info ->
   insertOrUpdateBadge info' rnd' (insertOrUpdateBadge info rnd row) =
   insertOrUpdateBadge info rnd row) /\
  is_Some (row_badge (insertOrUpdateBadge info rnd row)) /\
  row_processed (insertOrUpdateBadge info rnd row) = Some (row_hash info).
Proof.
  assert (H : is_Some (row_badge (insertOrUpdateBadge info rnd row)) /\
              row_processed (insertOrUpdateBadge info rnd row) =
              Some (row_hash info)).
  { unfold insertOrUpdateBadge. cbv zeta.
    destruct (same_hash (row_processed row) (row_hash info)) eqn:Eh;
      [|cbn; eauto].
    destruct (bool_decide (is_Some (row_badge row))) eqn:Eb; [|cbn; eauto].
    cbn [andb]. apply bool_decide_eq_true in Eb. split; [exact Eb|].
    unfold same_hash in Eh. destruct (row_processed row) as [h|]; [|discriminate].
    apply String.eqb_eq in Eh. now subst. }
  split; [|exact H]. destruct H as [Hb Hp]. intros Hh.
  unfold insertOrUpdateBadge at 1. cbv zeta.
  rewrite Hp, Hh. unfold same_hash. rewrite String.eqb_refl.
  now rewrite (bool_decide_eq_true_2 _ Hb).
Qed.

(** ** The email header analysis *)

Lemma calculateHeaderRisk_sum (d : EmailData) :
  calculateHeaderRisk d =
  points (String.eqb (ed_spf d) "FAIL") 30 +
  points (String.eqb (ed_dkim d) "FAIL") 25 +
  points (String.eqb (ed_dmarc d) "FAIL") 20 +
  points (isSuspiciousSender (fromAddress d)) 15.
Proof.
  unfold calculateHeaderRisk. cbv zeta. rewrite !if_points.
  unfold points.
  destruct (String.eqb (ed_spf d) "FAIL"), (String.eqb (ed_dkim d) "FAIL"),
    (String.eqb (ed_dmarc d) "FAIL"), (isSuspiciousSender (fromAddress d));
    reflexivity.
Qed.

(** X23.  The header risk of a mail row never exceeds 90, so its cap of
    100 is never reached; it is 0 exactly when no check fails and the
    sender is not a throwaway address; and every warning of the row stands
    for 20 to 30 points of it. *)
Theorem calculateHeaderRisk_bounds (d : EmailData) :
  0 <= calculateHeaderRisk d <= 90 /\
  (calculateHeaderRisk d = 0 <->
   generateHeaderWarnings d = [] /\ isSuspiciousSender (fromAddress d) = false) /\
  20 * Z.of_nat (List.length (generateHeaderWarnings d)) <= calculateHeaderRisk d
    <= 30 * Z.of_nat (List.length (generateHeaderWarnings d)) + 15.
Proof.
  rewrite calculateHeaderRisk_sum. unfold generateHeaderWarnings, points.
  cbv zeta.
  destruct (String.eqb (ed_spf d) "FAIL"), (String.eqb (ed_dkim d) "FAIL"),
    (String.eqb (ed_dmarc d) "FAIL"), (isSuspiciousSender (fromAddress d));
    cbn [app List.length];
    (split; [lia|]); (split; [|lia]);
    split; intros H; first [ lia | discriminate | now destruct H | now split ].
Qed.

(** X24.  The mail row alone gets a link intercepted exactly when the row
    fails SPF and shows at least two of: a DKIM failure, a DMARC failure,
    a throwaway sender.  Without an SPF failure the row never suffices. *)
Theorem row_intercepts_iff (d : EmailData) :
  link_email_risk (Some d) > 60 <->
  String.eqb (ed_spf d) "FAIL" = true /\ 2 <= other_failures d.
Proof.
  cbn [link_email_risk]. rewrite calculateHeaderRisk_sum.
  unfold other_failures, points.
  destruct (String.eqb (ed_spf d) "FAIL"), (String.eqb (ed_dkim d) "FAIL"),
    (String.eqb (ed_dmarc d) "FAIL"), (isSuspiciousSender (fromAddress d));
    split; intros H; first [ lia | split; [reflexivity | lia]
                           | destruct H; first [discriminate | lia] ].
Qed.

Example failing_row_intercepts :
  click_handler "https://example.org/" (link_email_risk (Some failing_row)) =
  Intercepted /\
  click_handler "https://example.org/" (link_email_risk None) = Allowed.
Proof. vm_compute. split; reflexivity. Qed.

(** ** The domain analysis *)



Lemma analyzeDomain_score (url domain : string) :
  da_riskScore (analyzeDomain url (Returns domain)) =
  Z.min 100
    (points (includes domain "ngrok" || isNewDomain domain) 30 +
     (if startsWith "https://" url
      then points (includes domain "ngrok" || isSuspiciousTld domain) 20
      else 25) +
     points (checkDomainReputation domain) 40 +
     points (includes url "login" || includes url "verify") 15 +
     points (isImpersonating (checkBrandImpersonation domain url)) 50).
Proof.
  unfold analyzeDomain. cbv zeta. cbn [da_riskScore].
  rewrite !if_points. f_equal.
  destruct (startsWith "https://" url); rewrite ?if_points; unfold points; lia.
Qed.

Lemma analyzeDomain_recommendations (url domain : string) :
  da_recommendations (analyzeDomain url (Returns domain)) =
  recommendations_for (risk_tier (da_riskScore (analyzeDomain url (Returns domain)))).
Proof.
  unfold analyzeDomain. cbv zeta. cbn [da_riskScore da_recommendations].
  unfold risk_tier. set (score := Z.min 100 _).
  destruct (score >? 70); [reflexivity|]. now destruct (score >? 40).
Qed.

(** X26.  The risk of a domain analysis lies in [0,100]; an unparsable URL
    gets the default risk of 50; and the recommendations are those of the
    tier of the risk: the high-risk pair above 70, the caution pair above
    40, the single reassurance otherwise. *)
Theorem analyzeDomain_risk_and_advice (url : string) (hostname : outcome string) :
  0 <= da_riskScore (analyzeDomain url hostname) <= 100 /\
  (forall err, hostname = Throws err ->
     da_riskScore (analyzeDomain url hostname) = 50) /\
  (forall domain, hostname = Returns domain ->
     da_recommendations (analyzeDomain url hostname) =
     recommendations_for (risk_tier (da_riskScore (analyzeDomain url hostname)))).
Proof.
  split; [|split].
  - destruct hostname as [domain|err]; [|cbn; lia].
    rewrite analyzeDomain_score.
    destruct (startsWith "https://" url); bound_points; lia.
  - now intros err ->.
  - intros domain ->. apply analyzeDomain_recommendations.
Qed.

Lemma includes_ngrok (domain : string) :
  includes domain "ngrok-free.app" = true \/ includes domain "ngrok.io" = true ->
  includes domain "ngrok" = true /\ checkDomainReputation domain = true.
Proof.
  intros H. split.
  - destruct H as [H|H]; eapply includes_trans; try exact H; reflexivity.
  - unfold checkDomainReputation. cbn [existsb].
    destruct H as [-> | ->]; now rewrite ?orb_true_r.
Qed.

(** X27.  A URL on a tunnel host, one whose host name holds
    [ngrok-free.app] or [ngrok.io], gets a domain risk of at least 90 and
    the high-risk recommendations, with or without https. *)
Theorem tunnel_host_high_risk (url domain : string) :
  includes domain "ngrok-free.app" = true \/ includes domain "ngrok.io" = true ->
  90 <= da_riskScore (analyzeDomain url (Returns domain)) /\
  da_recommendations (analyzeDomain url (Returns domain)) =
  recommendations_for high.
Proof.
  intros H. destruct (includes_ngrok domain H) as [Hn Hr].
  assert (Hs : 90 <= da_riskScore (analyzeDomain url (Returns domain))).
  { rewrite analyzeDomain_score, Hn, Hr. cbn [orb]. unfold points at 1 2 3.
    destruct (startsWith "https://" url); bound_points; lia. }
  split; [exact Hs|]. rewrite analyzeDomain_recommendations.
  unfold risk_tier.
  destruct (da_riskScore (analyzeDomain url (Returns domain)) >? 70) eqn:E;
    [reflexivity | lia].
Qed.

Lemma tunnel_host_high_risk_witness :
  90 <= da_riskScore (analyzeDomain "https://abc.ngrok-free.app/login"
                                    (Returns "abc.ngrok-free.app")) /\
  da_recommendations (analyzeDomain "https://abc.ngrok-free.app/login"
                                    (Returns "abc.ngrok-free.app")) =
  recommendations_for high.
Proof.
  apply (tunnel_host_high_risk "https://abc.ngrok-free.app/login"
                               "abc.ngrok-free.app").
  left. reflexivity.
Defined.

(** ** The certificate scores *)


(** ** [PasswordProtection] *)

Lemma focus_run_snoc (events : list (string * bool)) (ev : string * bool)
    (p : Protection) :
  focus_run (events ++ [ev]) p = on_focus (fst ev) (snd ev) (focus_run events p).
Proof. unfold focus_run. now rewrite fold_left_app. Qed.

(** X29.  On a page the password warning is shown at most once: over any
    run of focus events, exactly one warning is put on the page if some
    focus met a suspicious page and none otherwise, while auto-fill is
    suspended at every such focus, in order. *)
Theorem password_warning_shown_once (events : list (string * bool)) :
  warnings_shown (focus_run events new_protection) =
    (if existsb snd events then 1 else 0)%nat /\
  userWarned (focus_run events new_protection) = existsb snd events /\
  autofill_disabled (focus_run events new_protection) =
    map fst (List.filter snd events).
Proof.
  induction events as [|[field suspicious] events IH] using rev_ind.
  - now cbn.
  - rewrite focus_run_snoc, existsb_app, List.filter_app, map_app.
    cbn [fst snd existsb List.filter].
    destruct IH as (Hw & Hu & Ha).
    unfold on_focus, showPasswordWarning, temporarilyDisableAutoFill.
    destruct suspicious; cbn [orb].
    + destruct (userWarned (focus_run events new_protection)) eqn:Eu;
        cbn [warnings_shown userWarned autofill_disabled map];
        rewrite <- Hu in *; cbn [orb]; rewrite ?Hw, ?Ha; now rewrite ?orb_true_r.
    + rewrite !orb_false_r. cbn [map]. now rewrite app_nil_r.
Qed.
